(** * Sliding-window tiling of .tif rasters: [gdal_sliding_crop.py]

    A shallow embedding of [crop_tif_images_with_gdal] and the properties of
    its tiling grid, its file naming and its per-file error handling.

    The script is one function that talks to four collaborators: the
    operating system ([os.path.exists], [os.makedirs], [os.walk],
    [os.path.relpath]), GDAL ([gdal.Open], [gdal.Translate]), the console
    ([print]) and a progress bar ([tqdm]).  The collaborators are a record of
    oracles ([World]); every call that has an effect is recorded, in program
    order, in a trace of [Event]s; a raised exception ends the enclosing
    computation unless a handler catches it.  Paths follow [posixpath]
    ([os.sep] is a slash). *)

From Stdlib Require Import ZArith List String Ascii Bool Lia.
From Stdlib Require Import DecimalString DecimalZ Sorted.
Import ListNotations.

Open Scope string_scope.
Open Scope Z_scope.

(** ** Python values the script manipulates *)

(** An instance of [Exception]; [str(e)] is its message.  The collaborators
    raise nothing outside that class. *)
Record Exception : Type := mkException { message : string }.

Definition result (A : Type) : Type := (Exception + A)%type.

Module Py.

(** [str(n)] for an [int]. *)
Definition str (n : Z) : string := NilEmpty.string_of_int (Z.to_int n).

(** [s.replace(old, new)] for one-character [old] and [new]. *)
Fixpoint replace (old new : ascii) (s : string) : string :=
  match s with
  | EmptyString => EmptyString
  | String c s' =>
      String (if Ascii.eqb c old then new else c) (replace old new s')
  end.

Definition lower_char (c : ascii) : ascii :=
  let n := nat_of_ascii c in
  if ((65 <=? n) && (n <=? 90))%nat then ascii_of_nat (n + 32) else c.

(** [s.lower()] on file names, as case folding of the letters A to Z. *)
Fixpoint lower (s : string) : string :=
  match s with
  | EmptyString => EmptyString
  | String c s' => String (lower_char c) (lower s')
  end.

(** [s.endswith(suffix)]. *)
Fixpoint endswith (s suffix : string) : bool :=
  String.eqb s suffix
  || match s with
     | EmptyString => false
     | String _ s' => endswith s' suffix
     end.

(** [s.startswith(prefix)]. *)
Definition startswith (s prefix : string) : bool := String.prefix prefix s.

(** [s.rfind(c)]: the highest index of [c] in [s], or -1. *)
Fixpoint rfind (c : ascii) (s : string) : Z :=
  match s with
  | EmptyString => -1
  | String a s' =>
      let r := rfind c s' in
      if 0 <=? r then r + 1 else if Ascii.eqb a c then 0 else -1
  end.

(** [s[:i]] and [s[i:]] for [0 <= i]. *)
Fixpoint take (i : nat) (s : string) : string :=
  match i, s with
  | S i', String c s' => String c (take i' s')
  | _, _ => EmptyString
  end.

Fixpoint drop (i : nat) (s : string) : string :=
  match i, s with
  | S i', String _ s' => drop i' s'
  | _, _ => s
  end.

Definition slice_to (s : string) (i : Z) : string := take (Z.to_nat i) s.
Definition slice_from (s : string) (i : Z) : string := drop (Z.to_nat i) s.

(** [s[i:i+1]]: one character, or the empty string past the end. *)
Definition char_at (s : string) (i : Z) : string :=
  match String.get (Z.to_nat i) s with
  | Some c => String c EmptyString
  | None => EmptyString
  end.

(** [len(range(start, stop, step))] for a non-zero step. *)
Definition range_len (start stop step : Z) : Z :=
  if 0 <? step
  then (if start <? stop then (stop - start - 1) / step + 1 else 0)
  else (if stop <? start then (start - stop - 1) / (- step) + 1 else 0).

(** [range(start, stop, step)], which raises on a zero step. *)
Definition range (start stop step : Z) : result (list Z) :=
  if step =? 0
  then inl (mkException "range() arg 3 must not be zero")
  else inr (map (fun i => start + Z.of_nat i * step)
                (seq 0 (Z.to_nat (range_len start stop step)))).

End Py.

(** ** [os.path] on POSIX *)

Module os_path.

Definition sep : ascii := "/"%char.
Definition extsep : ascii := "."%char.

(** The [while] loop of [genericpath._splitext] that skips leading dots:
    [true] when one of the [n] characters from [filenameIndex] on is not a
    dot. *)
Fixpoint find_non_dot (p : string) (filenameIndex : Z) (n : nat) : bool :=
  match n with
  | O => false
  | S n' =>
      if negb (String.eqb (Py.char_at p filenameIndex)
                          (String extsep EmptyString))
      then true
      else find_non_dot p (filenameIndex + 1) n'
  end.

(** [os.path.splitext(p)]. *)
Definition splitext (p : string) : string * string :=
  let sepIndex := Py.rfind sep p in
  let dotIndex := Py.rfind extsep p in
  if sepIndex <? dotIndex then
    let filenameIndex := sepIndex + 1 in
    if find_non_dot p filenameIndex (Z.to_nat (dotIndex - filenameIndex))
    then (Py.slice_to p dotIndex, Py.slice_from p dotIndex)
    else (p, EmptyString)
  else (p, EmptyString).

(** [os.path.join(a, b)]. *)
Definition join (a b : string) : string :=
  if Py.startswith b (String sep EmptyString) then b
  else if String.eqb a EmptyString || Py.endswith a (String sep EmptyString)
       then a ++ b
       else a ++ String sep EmptyString ++ b.

End os_path.

(** ** Collaborators and effects *)

(** An opened raster: the path it was opened from and its two size
    attributes, whose reads may raise. *)
Record Dataset : Type := mkDataset {
  ds_path : string;
  RasterXSize : result Z;
  RasterYSize : result Z
}.

(** [srcWin]: (xoff, yoff, xsize, ysize). *)
Definition SrcWin : Type := (Z * Z * Z * Z)%type.

(** The calls with an effect, as the trace records them. *)
Inductive Event : Type :=
| os_makedirs (path : string)
| os_walk (top : string)
| tqdm (total : nat)
| gdal_Open (path : string)
| gdal_Translate (dest : string) (src : Dataset) (srcWin : SrcWin)
| print (line : string)
| progress_bar_update (n : Z)
| progress_bar_close.

(** What the collaborators answer.  [makedirs] and [Translate] answer [None]
    when they return normally; [Open] answers [inr None] for GDAL's [None].
    The environment is an orderly one: [os.walk] yields a listing, and the
    console and the progress bar take what they are given without
    raising. *)
Record World : Type := mkWorld {
  exists_ : string -> bool;
  makedirs : string -> option Exception;
  walk : string -> list (string * list string);
  relpath : string -> string -> string;
  Open : string -> result (option Dataset);
  Translate : string -> Dataset -> SrcWin -> option Exception
}.

(** A computation: the events it performed, then an exception or a value. *)
Definition M (A : Type) : Type := (list Event * result A)%type.

Definition ret {A} (a : A) : M A := ([], inr a).

Definition bind {A B} (m : M A) (k : A -> M B) : M B :=
  match m with
  | (t, inl e) => (t, inl e)
  | (t, inr a) => let (t', r) := k a in ((t ++ t')%list, r)
  end.

Notation "x <- m ;; k" := (bind m (fun x => k))
  (at level 61, m at next level, right associativity).
Notation "m ;;; k" := (bind m (fun _ => k))
  (at level 61, right associativity).

Definition lift {A} (r : result A) : M A := ([], r).

Definition emit (ev : Event) : M unit := ([ev], inr tt).

(** An effectful call that may raise after it has been recorded. *)
Definition call (ev : Event) (outcome : option Exception) : M unit :=
  ([ev], match outcome with Some e => inl e | None => inr tt end).

(** [for x in xs: body], left by the first exception. *)
Fixpoint for_ {A} (xs : list A) (body : A -> M unit) : M unit :=
  match xs with
  | [] => ret tt
  | x :: xs' => body x ;;; for_ xs' body
  end.

(** [try: body / except Exception as e: handler(e)]. *)
Definition try_except (body : M unit) (handler : Exception -> M unit)
  : M unit :=
  match body with
  | (t, inl e) => let (t', r) := handler e in ((t ++ t')%list, r)
  | (t, inr a) => (t, inr a)
  end.

(** [try: body / finally: final]: [final] runs on both exits, and the
    exception of [body], if any, is raised again after it. *)
Definition try_finally (body : M unit) (final : M unit) : M unit :=
  match body, final with
  | (t, r), (t', inr _) => ((t ++ t')%list, r)
  | (t, _), (t', inl e') => ((t ++ t')%list, inl e')
  end.

(** ** The script *)

Section Script.

Variable w : World.
Variables input_directory output_directory : string.
Variable window_size : Z * Z.
Variable step_size : Z.

Definition supported_format : string := "tif".

(** Line 28: the test on a file name. *)
Definition is_tif (file : string) : bool :=
  Py.endswith (Py.lower file) ("." ++ supported_format).

(** Lines 25-29: the paths [os.walk] yields that end in [.tif]. *)
Definition collect_tif_paths (walked : list (string * list string))
  : list string :=
  flat_map
    (fun '(subdir, files) =>
       flat_map
         (fun file => if is_tif file then [os_path.join subdir file] else [])
         files)
    walked.

(** Line 49: the f-string, from the relative path and the four corners. *)
Definition cropped_img_name_of (relative_path : string)
    (left top right bottom : Z) : string :=
  let '(base_name, ext) := os_path.splitext relative_path in
  Py.replace os_path.sep "_" base_name
    ++ "_" ++ Py.str left ++ "_" ++ Py.str top
    ++ "_" ++ Py.str right ++ "_" ++ Py.str bottom ++ ext.

(** Lines 42-54: the body of the inner loop. *)
Definition crop_window (tif_path : string) (dataset : Dataset)
    (top left : Z) : M unit :=
  let bottom := top + snd window_size in
  let right := left + fst window_size in
  let relative_path := relpath w tif_path input_directory in
  let cropped_img_name :=
    cropped_img_name_of relative_path left top right bottom in
  let cropped_img_path := os_path.join output_directory cropped_img_name in
  let srcwin := (left, top, fst window_size, snd window_size) in
  call (gdal_Translate cropped_img_path dataset srcwin)
       (Translate w cropped_img_path dataset srcwin).

(** Lines 39-54: the two loops over one opened raster. *)
Definition crop_dataset (tif_path : string) (dataset : Dataset) : M unit :=
  img_width <- lift (RasterXSize dataset) ;;
  img_height <- lift (RasterYSize dataset) ;;
  tops <- lift (Py.range 0 (img_height - snd window_size + 1) step_size) ;;
  for_ tops (fun top =>
    lefts <- lift (Py.range 0 (img_width - fst window_size + 1) step_size) ;;
    for_ lefts (fun left => crop_window tif_path dataset top left)).

(** Lines 35-54: the body of the [try]. *)
Definition try_body (tif_path : string) : M unit :=
  dataset <- (gdal_Open tif_path :: nil, Open w tif_path) ;;
  match dataset with
  | None => ret tt
  | Some dataset => crop_dataset tif_path dataset
  end.

Definition error_line (tif_path : string) (e : Exception) : string :=
  "Error processing " ++ tif_path ++ ": " ++ message e.

(** Lines 34-58: one iteration of the loop over the files. *)
Definition process_file (tif_path : string) : M unit :=
  try_finally
    (try_except (try_body tif_path)
                (fun e => emit (print (error_line tif_path e))))
    (emit (progress_bar_update 1)).

(** Lines 33-60. *)
Definition process_all (tif_paths : list string) : M unit :=
  emit (tqdm (List.length tif_paths)) ;;;
  for_ tif_paths process_file ;;;
  emit progress_bar_close.

Definition tif_paths : list string :=
  collect_tif_paths (walk w input_directory).

(** Lines 18-60. *)
Definition crop_tif_images_with_gdal : M unit :=
  (if negb (exists_ w output_directory)
   then call (os_makedirs output_directory) (makedirs w output_directory)
   else ret tt) ;;;
  emit (os_walk input_directory) ;;;
  process_all tif_paths.

End Script.

(** ** The invocation at module level (lines 62-69) *)

Module Main.

Definition input_dir : string := "/home/user/data/Xijiang-0602/".
Definition output_dir : string := "/home/user/data/cropped_images/XiJiang-0602/".
Definition window_size : Z * Z := (1000, 1000).
Definition step_size : Z := 1000.

(** Line 69: the call the script makes when it is run. *)
Definition run (w : World) : M unit :=
  crop_tif_images_with_gdal w input_dir output_dir window_size step_size.

End Main.

(** ** Observations on strings *)

(** [c in s]. *)
Fixpoint occurs (c : ascii) (s : string) : Prop :=
  match s with
  | EmptyString => False
  | String a s' => a = c \/ occurs c s'
  end.

(** The characters of the decimal notation of an [int]. *)
Definition int_char (c : ascii) : bool :=
  Ascii.eqb c "-" || ((48 <=? nat_of_ascii c) && (nat_of_ascii c <=? 57))%nat.

(** ** Observations on computations *)

Definition trace {A} (m : M A) : list Event := fst m.
Definition outcome {A} (m : M A) : result A := snd m.

(** [l1] is an initial segment of [l2]. *)
Definition prefix_of {A} (l1 l2 : list A) : Prop :=
  exists rest, l2 = (l1 ++ rest)%list.

(** The crop requests of a trace, in program order. *)
Fixpoint translations (t : list Event) : list (string * Dataset * SrcWin) :=
  match t with
  | [] => []
  | gdal_Translate dest src win :: t' => (dest, src, win) :: translations t'
  | _ :: t' => translations t'
  end.

(** The lines a trace printed. *)
Fixpoint printed (t : list Event) : list string :=
  match t with
  | [] => []
  | print line :: t' => line :: printed t'
  | _ :: t' => printed t'
  end.

(** The amounts by which a trace advanced the progress bar. *)
Fixpoint updates (t : list Event) : list Z :=
  match t with
  | [] => []
  | progress_bar_update n :: t' => n :: updates t'
  | _ :: t' => updates t'
  end.

(** The paths a trace asked GDAL to open, in program order. *)
Fixpoint opens (t : list Event) : list string :=
  match t with
  | [] => []
  | gdal_Open path :: t' => path :: opens t'
  | _ :: t' => opens t'
  end.

(** The pixel (x, y) lies in the window of the given size at the origin
    (top, left). *)
Definition in_window (window_size : Z * Z) (tl : Z * Z) (x y : Z) : Prop :=
  snd tl <= x < snd tl + fst window_size /\
  fst tl <= y < fst tl + snd window_size.

(** The origin (top, left) of a [srcWin]. *)
Definition origin (win : SrcWin) : Z * Z :=
  let '(xoff, yoff, _, _) := win in (yoff, xoff).

(** The origins of the crop requests of a trace, in program order. *)
Definition origins (t : list Event) : list (Z * Z) :=
  map (fun r => origin (snd r)) (translations t).

(** Row-major order on origins (top, left). *)
Definition lex_lt (a b : Z * Z) : Prop :=
  fst a < fst b \/ (fst a = fst b /\ snd a < snd b).

(** The origins (top, left) the two loops of lines 40-41 visit, in order,
    for a raster of the given size. *)
Definition windows (window_size : Z * Z) (step_size : Z)
    (img_width img_height : Z) : list (Z * Z) :=
  match Py.range 0 (img_height - snd window_size + 1) step_size,
        Py.range 0 (img_width - fst window_size + 1) step_size with
  | inr tops, inr lefts =>
      flat_map (fun top => map (fun left => (top, left)) lefts) tops
  | _, _ => []
  end.

(** The call of line 54 for one origin. *)
Definition translate_call (w : World)
    (input_directory output_directory : string) (window_size : Z * Z)
    (tif_path : string) (dataset : Dataset) (tl : Z * Z) : Event :=
  let top := fst tl in
  let left := snd tl in
  gdal_Translate
    (os_path.join output_directory
       (cropped_img_name_of (relpath w tif_path input_directory)
          left top (left + fst window_size) (top + snd window_size)))
    dataset (left, top, fst window_size, snd window_size).

(** ** A sample run

    An input directory [in] that holds [x.txt] and, under [a], a raster
    [b.tif] of 2000 by 1500 pixels and a file [c.TIF] GDAL cannot open; the
    output directory [out] does not exist yet. *)

Definition sample_dataset : Dataset :=
  mkDataset "in/a/b.tif" (inr 2000) (inr 1500).

(** [os.path.relpath] for a path that lies under [start]. *)
Definition sample_relpath (path start : string) : string :=
  Py.drop (S (String.length start)) path.

Definition sample_walk (top : string) : list (string * list string) :=
  [(top, ["x.txt"]); (os_path.join top "a", ["b.tif"; "c.TIF"])].

Definition sample_open (path : string) : result (option Dataset) :=
  if String.eqb path "in/a/b.tif" then inr (Some sample_dataset)
  else inr None.

Definition sample_world : World :=
  mkWorld (fun _ => false) (fun _ => None) sample_walk sample_relpath
          sample_open (fun _ _ _ => None).

(** The same, with the output directory already there. *)
Definition rerun_world : World :=
  mkWorld (fun _ => true) (fun _ => Some (mkException "File exists"))
          sample_walk sample_relpath sample_open (fun _ _ _ => None).

(** The same, with a crop primitive that fails on the second tile. *)
Definition disk_full_world : World :=
  mkWorld (fun _ => false) (fun _ => None) sample_walk sample_relpath
          sample_open
          (fun dest _ _ =>
             if String.eqb dest "out/a_b_1000_0_2000_1000.tif"
             then Some (mkException "No space left on device") else None).

(** The same, with an output directory that cannot be created. *)
Definition read_only_world : World :=
  mkWorld (fun _ => false) (fun _ => Some (mkException "Permission denied"))
          sample_walk sample_relpath sample_open (fun _ _ _ => None).

(** The sample directory listed in another order, with the output directory
    already there. *)
Definition relisted_walk (top : string) : list (string * list string) :=
  [(os_path.join top "a", ["c.TIF"; "b.tif"]); (top, ["x.txt"])].

Definition relisted_world : World :=
  mkWorld (fun _ => true) (fun _ => Some (mkException "File exists"))
          relisted_walk sample_relpath sample_open (fun _ _ _ => None).

(** An input directory without rasters, and an output directory that is
    there. *)
Definition no_tif_world : World :=
  mkWorld (fun _ => true) (fun _ => None)
          (fun top => [(top, ["x.txt"; "notes.tiff"; "tif"])])
          sample_relpath (fun _ => inr None) (fun _ _ _ => None).

(** * Properties *)

Example splitext_tif :
  os_path.splitext "a/b.tif" = ("a/b", ".tif").
Proof. reflexivity. Qed.

Example splitext_hidden :
  os_path.splitext "a.d/.tif" = ("a.d/.tif", "").
Proof. reflexivity. Qed.

Example range_step :
  Py.range 0 (2000 - 1000 + 1) 1000 = inr [0; 1000].
Proof. reflexivity. Qed.

(** The sample run: the raster of 2000 by 1500 pixels yields two tiles of
    1000 by 1000, and the file that does not open yields none. *)
Example sample_run :
  crop_tif_images_with_gdal sample_world "in" "out" (1000, 1000) 1000
  = ([os_makedirs "out"; os_walk "in"; tqdm 2;
      gdal_Open "in/a/b.tif";
      gdal_Translate "out/a_b_0_0_1000_1000.tif" sample_dataset
        (0, 0, 1000, 1000);
      gdal_Translate "out/a_b_1000_0_2000_1000.tif" sample_dataset
        (1000, 0, 1000, 1000);
      progress_bar_update 1;
      gdal_Open "in/a/c.TIF";
      progress_bar_update 1;
      progress_bar_close],
     inr tt).
Proof. reflexivity. Qed.

(** A zero step makes [range] raise in every file, before any crop. *)
Example zero_step_run :
  crop_tif_images_with_gdal rerun_world "in" "out" (1000, 1000) 0
  = ([os_walk "in"; tqdm 2;
      gdal_Open "in/a/b.tif";
      print "Error processing in/a/b.tif: range() arg 3 must not be zero";
      progress_bar_update 1;
      gdal_Open "in/a/c.TIF";
      progress_bar_update 1;
      progress_bar_close],
     inr tt).
Proof. reflexivity. Qed.

(** ** Traces of loops and handlers *)

Lemma prefix_of_refl {A} (l : list A) : prefix_of l l.
Proof. exists []. now rewrite app_nil_r. Qed.

Lemma prefix_of_nil {A} (l : list A) : prefix_of [] l.
Proof. now exists l. Qed.

Lemma prefix_of_app {A} (l l1 l2 : list A) :
  prefix_of l1 l2 -> prefix_of (l ++ l1) (l ++ l2).
Proof. intros [r ->]. exists r. now rewrite app_assoc. Qed.

Lemma prefix_of_app_r {A} (l1 l2 l3 : list A) :
  prefix_of l1 l2 -> prefix_of l1 (l2 ++ l3).
Proof. intros [r ->]. exists (r ++ l3)%list. now rewrite app_assoc. Qed.

Lemma bind_trace_in {A B} (m : M A) (k : A -> M B) (ev : Event) :
  In ev (trace (bind m k)) ->
  In ev (trace m) \/ exists a, outcome m = inr a /\ In ev (trace (k a)).
Proof.
  destruct m as [t [e | a]]; simpl; auto.
  destruct (k a) as [t' r] eqn:K; simpl. intros H.
  apply in_app_or in H as [H | H]; auto.
  right. exists a. rewrite K. auto.
Qed.

Lemma bind_ok {A B} (m : M A) (k : A -> M B) (a : A) :
  outcome m = inr a ->
  bind m k = ((trace m ++ trace (k a))%list, outcome (k a)).
Proof.
  destruct m as [t r]; simpl. intros ->. now destruct (k a).
Qed.

Lemma bind_raise {A B} (m : M A) (k : A -> M B) (e : Exception) :
  outcome m = inl e -> bind m k = (trace m, inl e).
Proof. destruct m as [t r]; simpl. now intros ->. Qed.

Lemma bind_lift {A B} (a : A) (k : A -> M B) : bind (lift (inr a)) k = k a.
Proof. unfold bind, lift. now destruct (k a). Qed.

Lemma bind_lift_raise {A B} (e : Exception) (k : A -> M B) :
  bind (lift (inl e)) k = ([], inl e).
Proof. reflexivity. Qed.

Lemma flat_map_singleton {A B} (f : A -> B) (l : list A) :
  flat_map (fun x => [f x]) l = map f l.
Proof. induction l; simpl; congruence. Qed.

Lemma flat_map_same {A B} (f g : A -> list B) (l : list A) :
  (forall x, In x l -> f x = g x) -> flat_map f l = flat_map g l.
Proof.
  induction l as [| a l IH]; intros H; [reflexivity |].
  simpl. rewrite (H a) by now left. rewrite IH; [reflexivity |].
  intros; apply H; now right.
Qed.

Lemma map_flat_map {A B C} (f : B -> C) (g : A -> list B) (l : list A) :
  map f (flat_map g l) = flat_map (fun x => map f (g x)) l.
Proof.
  induction l as [| a l IH]; [reflexivity |].
  simpl. now rewrite map_app, IH.
Qed.

Section Loops.

Context {A : Type}.
Variable body : A -> M unit.

Lemma for_cons (x : A) (xs : list A) :
  for_ (x :: xs) body = body x ;;; for_ xs body.
Proof. reflexivity. Qed.

Lemma for_ext (body' : A -> M unit) (xs : list A) :
  (forall x, In x xs -> body x = body' x) -> for_ xs body = for_ xs body'.
Proof.
  induction xs as [| x xs IH]; intros H; [reflexivity |].
  simpl. rewrite (H x) by now left. rewrite IH; [reflexivity |].
  intros; apply H; now right.
Qed.

(** A loop whose iterations all return runs them all. *)
Lemma for_ok (xs : list A) :
  (forall x, In x xs -> outcome (body x) = inr tt) ->
  for_ xs body = (flat_map (fun x => trace (body x)) xs, inr tt).
Proof.
  induction xs as [| x xs IH]; intros H; [reflexivity |].
  rewrite for_cons, (bind_ok _ _ tt) by (apply H; now left).
  rewrite IH by (intros; apply H; now right). reflexivity.
Qed.

(** Every event of a loop is an event of one of its iterations. *)
Lemma for_in (xs : list A) (ev : Event) :
  In ev (trace (for_ xs body)) ->
  exists x, In x xs /\ In ev (trace (body x)).
Proof.
  induction xs as [| x xs IH]; [intros [] |].
  rewrite for_cons. intros H.
  apply bind_trace_in in H as [H | (_ & _ & H)].
  - exists x. split; [now left | assumption].
  - destruct (IH H) as (y & Hy & Hev). exists y. split; [now right | auto].
Qed.

(** The trace of a loop is an initial segment of the trace of all its
    iterations, and the whole of it when the loop returns. *)
Lemma for_prefix (full : A -> list Event) (xs : list A) :
  (forall x, In x xs ->
     prefix_of (trace (body x)) (full x) /\
     (outcome (body x) = inr tt -> trace (body x) = full x)) ->
  prefix_of (trace (for_ xs body)) (flat_map full xs) /\
  (outcome (for_ xs body) = inr tt ->
   trace (for_ xs body) = flat_map full xs).
Proof.
  induction xs as [| x xs IH]; intros H.
  - split; [apply prefix_of_refl | reflexivity].
  - destruct (H x (or_introl eq_refl)) as [Hp Hfull].
    destruct IH as [IHp IHfull]; [intros; apply H; now right |].
    rewrite for_cons. simpl flat_map.
    destruct (outcome (body x)) as [e | []] eqn:O.
    + rewrite (bind_raise _ _ e O). simpl. split; [| discriminate].
      now apply prefix_of_app_r.
    + rewrite (bind_ok _ _ tt O). unfold trace, outcome in *. simpl.
      rewrite (Hfull eq_refl). split.
      * now apply prefix_of_app.
      * intros R. now rewrite (IHfull R).
Qed.

(** A loop stopped by an exception ran a first run of iterations in full
    and was left inside the next one. *)
Lemma for_raise (xs : list A) (e : Exception) :
  outcome (for_ xs body) = inl e ->
  exists xs1 x xs2,
    xs = (xs1 ++ x :: xs2)%list /\
    (forall y, In y xs1 -> outcome (body y) = inr tt) /\
    outcome (body x) = inl e /\
    trace (for_ xs body)
    = (flat_map (fun y => trace (body y)) xs1 ++ trace (body x))%list.
Proof.
  induction xs as [| x xs IH]; [discriminate |].
  rewrite for_cons.
  destruct (outcome (body x)) as [e' | []] eqn:O.
  - rewrite (bind_raise _ _ e' O). simpl. intros [= ->].
    exists [], x, xs. repeat split; auto. intros y [].
  - rewrite (bind_ok _ _ tt O). simpl. intros R.
    destruct (IH R) as (xs1 & y & xs2 & -> & Hok & Hy & Ht).
    exists (x :: xs1), y, xs2. repeat split; auto.
    + intros z [<- | Hz]; auto.
    + unfold trace in *. simpl. rewrite Ht. now rewrite app_assoc.
Qed.

End Loops.

(** ** [range(0, stop, step)] for a positive step *)

Section Range.

Variables stop step : Z.
Hypothesis step_pos : 0 < step.

Lemma range_len_pos :
  Py.range_len 0 stop step = if 0 <? stop then (stop - 1) / step + 1 else 0.
Proof.
  unfold Py.range_len. destruct (Z.ltb_spec 0 step); [| lia].
  now rewrite Z.sub_0_r.
Qed.

Lemma range_len_nonneg : 0 <= Py.range_len 0 stop step.
Proof.
  rewrite range_len_pos. destruct (Z.ltb_spec 0 stop); [| lia].
  assert (0 <= (stop - 1) / step) by (apply Z.div_pos; lia). lia.
Qed.

Lemma range_pos :
  Py.range 0 stop step
  = inr (map (fun i => Z.of_nat i * step)
             (seq 0 (Z.to_nat (Py.range_len 0 stop step)))).
Proof.
  unfold Py.range. destruct (Z.eqb_spec step 0); [lia | reflexivity].
Qed.

Lemma range_length (xs : list Z) :
  Py.range 0 stop step = inr xs ->
  Z.of_nat (List.length xs) = Py.range_len 0 stop step.
Proof.
  rewrite range_pos. intros [= <-].
  rewrite length_map, length_seq. apply Z2Nat.id, range_len_nonneg.
Qed.

(** The values are the multiples of the step below [stop], from 0 on. *)
Lemma range_in (xs : list Z) (x : Z) :
  Py.range 0 stop step = inr xs ->
  In x xs -> 0 <= x < stop /\ exists i : nat, x = Z.of_nat i * step.
Proof.
  rewrite range_pos. intros [= <-] H.
  apply in_map_iff in H as (i & <- & Hi). apply in_seq in Hi.
  split; [| now exists i].
  assert (Hlt : Z.of_nat i < Py.range_len 0 stop step).
  { pose proof range_len_nonneg. lia. }
  rewrite range_len_pos in Hlt. destruct (Z.ltb_spec 0 stop); [| lia].
  assert (Z.of_nat i * step <= (stop - 1) / step * step)
    by (apply Z.mul_le_mono_nonneg_r; lia).
  pose proof (Z.mul_div_le (stop - 1) step step_pos). nia.
Qed.

Lemma range_sorted (xs : list Z) :
  Py.range 0 stop step = inr xs -> StronglySorted Z.lt xs.
Proof.
  rewrite range_pos. intros [= <-].
  generalize (Z.to_nat (Py.range_len 0 stop step)) as n.
  generalize 0%nat as a. intros a n. revert a.
  induction n as [| n IH]; intros a; simpl; constructor; [apply IH |].
  apply Forall_forall. intros y Hy.
  apply in_map_iff in Hy as (j & <- & Hj). apply in_seq in Hj. nia.
Qed.

End Range.

(** The length of the range of one axis, as the tile count states it. *)
Lemma axis_count (size window step : Z) :
  0 < step ->
  Py.range_len 0 (size - window + 1) step
  = if window <=? size then (size - window) / step + 1 else 0.
Proof.
  intros Hs. rewrite range_len_pos by assumption.
  destruct (Z.ltb_spec 0 (size - window + 1)), (Z.leb_spec window size);
    try lia.
  now replace (size - window + 1 - 1) with (size - window) by lia.
Qed.

(** ** Sorted lists *)

Lemma StronglySorted_app {A} (R : A -> A -> Prop) (l1 l2 : list A) :
  StronglySorted R l1 -> StronglySorted R l2 ->
  (forall x y, In x l1 -> In y l2 -> R x y) ->
  StronglySorted R (l1 ++ l2).
Proof.
  induction l1 as [| a l1 IH]; intros S1 S2 H; [assumption |].
  apply StronglySorted_inv in S1 as [S1 Ha]. simpl. constructor.
  - apply IH; auto. intros; apply H; simpl; auto.
  - apply Forall_app. split; [assumption |].
    apply Forall_forall. intros y Hy. apply H; simpl; auto.
Qed.

Lemma StronglySorted_prefix {A} (R : A -> A -> Prop) (l1 l2 : list A) :
  prefix_of l1 l2 -> StronglySorted R l2 -> StronglySorted R l1.
Proof.
  intros [r ->]. induction l1 as [| a l1 IH]; intros S; [constructor |].
  simpl in S. apply StronglySorted_inv in S as [S Ha].
  constructor; [now apply IH |].
  apply Forall_app in Ha. tauto.
Qed.

Lemma StronglySorted_map {A B} (R : A -> A -> Prop) (R' : B -> B -> Prop)
    (f : A -> B) (l : list A) :
  (forall x y, R x y -> R' (f x) (f y)) ->
  StronglySorted R l -> StronglySorted R' (map f l).
Proof.
  intros Hf. induction 1 as [| a l S IH Ha]; simpl; constructor; auto.
  apply Forall_map. revert Ha. apply Forall_impl. auto.
Qed.

(** ** The trace of one file *)

Section OneFile.

Variable w : World.
Variables input_directory output_directory : string.
Variable window_size : Z * Z.
Variable step_size : Z.

#[local] Abbreviation crop_window := (crop_window w input_directory output_directory window_size).
#[local] Abbreviation crop_dataset := (crop_dataset w input_directory output_directory window_size step_size).
#[local] Abbreviation try_body := (try_body w input_directory output_directory window_size step_size).
#[local] Abbreviation process_file := (process_file w input_directory output_directory window_size step_size).
#[local] Abbreviation translate_call := (translate_call w input_directory output_directory window_size).

Lemma crop_window_trace (p : string) (ds : Dataset) (top left : Z) :
  trace (crop_window p ds top left) = [translate_call p ds (top, left)].
Proof. reflexivity. Qed.

Lemma crop_window_outcome (p : string) (ds : Dataset) (top left : Z) :
  outcome (crop_window p ds top left)
  = match Translate w
            (os_path.join output_directory
               (cropped_img_name_of (relpath w p input_directory)
                  left top (left + fst window_size) (top + snd window_size)))
            ds (left, top, fst window_size, snd window_size) with
    | Some e => inl e
    | None => inr tt
    end.
Proof. reflexivity. Qed.

(** Every call of one raster's loops is the call of an origin of its grid. *)
Lemma crop_dataset_in (p : string) (ds : Dataset) (ev : Event) :
  In ev (trace (crop_dataset p ds)) ->
  exists W H tl,
    RasterXSize ds = inr W /\ RasterYSize ds = inr H /\
    In tl (windows window_size step_size W H) /\
    ev = translate_call p ds tl.
Proof.
  unfold crop_dataset, lift.
  destruct (RasterXSize ds) as [e | W]; [intros [] |].
  destruct (RasterYSize ds) as [e | H]; [intros [] |].
  cbn [bind app].
  destruct (Py.range 0 (H - snd window_size + 1) step_size)
    as [e | tops] eqn:Etops; [intros [] |].
  cbn [bind app]. set (loop := for_ tops _).
  destruct loop as [t r] eqn:L. cbn [trace fst]. intros Hev.
  assert (Hin : In ev (trace loop)) by (subst loop; now rewrite L).
  apply for_in in Hin as (top & Htop & Hin).
  destruct (Py.range 0 (W - fst window_size + 1) step_size)
    as [e | lefts] eqn:Elefts; [destruct Hin |].
  cbn [bind app] in Hin. set (inner := for_ lefts _) in Hin.
  assert (Hin' : In ev (trace inner)) by (now destruct inner).
  apply for_in in Hin' as (left & Hleft & [<- | []]).
  exists W, H, (top, left). repeat split; auto.
  unfold windows. rewrite Etops, Elefts.
  apply in_flat_map. exists top. split; [assumption |].
  now apply in_map.
Qed.

Lemma range_raises (stop stop' : Z) (e : Exception) :
  Py.range 0 stop step_size = inl e -> Py.range 0 stop' step_size = inl e.
Proof. unfold Py.range. now destruct (step_size =? 0). Qed.

(** The calls of one raster's loops are an initial segment of the calls of
    its grid, and all of them when the loops run to their end. *)
Lemma crop_dataset_prefix (p : string) (ds : Dataset) (W H : Z) :
  RasterXSize ds = inr W -> RasterYSize ds = inr H ->
  prefix_of (trace (crop_dataset p ds))
            (map (translate_call p ds) (windows window_size step_size W H))
  /\ (outcome (crop_dataset p ds) = inr tt ->
      trace (crop_dataset p ds)
      = map (translate_call p ds) (windows window_size step_size W H)).
Proof.
  intros HW HH. unfold crop_dataset, windows. rewrite HW, HH, !bind_lift.
  destruct (Py.range 0 (H - snd window_size + 1) step_size)
    as [e | tops] eqn:Etops.
  { rewrite bind_lift_raise. split; [apply prefix_of_nil | discriminate]. }
  destruct (Py.range 0 (W - fst window_size + 1) step_size)
    as [e | lefts] eqn:Elefts.
  { apply range_raises with (stop' := H - snd window_size + 1) in Elefts.
    congruence. }
  rewrite bind_lift.
  rewrite (for_ext _ (fun top =>
             for_ lefts (fun left => crop_window p ds top left)))
    by (intros; now rewrite bind_lift).
  rewrite map_flat_map.
  apply for_prefix. intros top _.
  rewrite map_map, <- flat_map_singleton.
  apply for_prefix. intros left _.
  rewrite crop_window_trace. split; [apply prefix_of_refl | reflexivity].
Qed.

(** With a crop primitive that never raises on it and a non-zero step, a
    raster's loops run to their end. *)
Lemma crop_dataset_returns (p : string) (ds : Dataset) (W H : Z) :
  RasterXSize ds = inr W -> RasterYSize ds = inr H ->
  step_size <> 0 ->
  (forall dest win, Translate w dest ds win = None) ->
  outcome (crop_dataset p ds) = inr tt.
Proof.
  intros HW HH Hs Hok. unfold crop_dataset. rewrite HW, HH, !bind_lift.
  unfold Py.range. destruct (Z.eqb_spec step_size 0); [contradiction |].
  rewrite bind_lift. erewrite for_ok; [reflexivity |].
  intros top _. rewrite bind_lift. erewrite for_ok; [reflexivity |].
  intros left _. rewrite crop_window_outcome. now rewrite Hok.
Qed.

Lemma try_body_open_raises (p : string) (e : Exception) :
  Open w p = inl e -> try_body p = ([gdal_Open p], inl e).
Proof. unfold try_body. now intros ->. Qed.

Lemma try_body_open_none (p : string) :
  Open w p = inr None -> try_body p = ([gdal_Open p], inr tt).
Proof. unfold try_body. now intros ->. Qed.

Lemma try_body_open_some (p : string) (ds : Dataset) :
  Open w p = inr (Some ds) ->
  try_body p
  = (gdal_Open p :: trace (crop_dataset p ds), outcome (crop_dataset p ds)).
Proof.
  unfold try_body. intros ->. cbn [bind].
  now destruct (crop_dataset p ds).
Qed.

(** The [try] body never touches the progress bar. *)
Lemma crop_dataset_updates (p : string) (ds : Dataset) :
  updates (trace (crop_dataset p ds)) = [].
Proof.
  pose proof (crop_dataset_in p ds) as Hall.
  induction (trace (crop_dataset p ds)) as [| ev t IH]; [reflexivity |].
  destruct (Hall ev (or_introl eq_refl)) as (_ & _ & tl & _ & _ & _ & ->).
  cbn. apply IH. intros; apply Hall; now right.
Qed.

Lemma try_body_updates (p : string) : updates (trace (try_body p)) = [].
Proof.
  destruct (Open w p) as [e | [ds |]] eqn:O.
  - now rewrite (try_body_open_raises _ _ O).
  - rewrite (try_body_open_some _ _ O). apply crop_dataset_updates.
  - now rewrite (try_body_open_none _ O).
Qed.

(** One iteration of the file loop: the body of the [try], one printed line
    when the body raised, one step of the progress bar; it never raises. *)
Lemma process_file_eq (p : string) :
  process_file p
  = ((trace (try_body p)
      ++ match outcome (try_body p) with
         | inl e => [print (error_line p e)]
         | inr _ => []
         end
      ++ [progress_bar_update 1])%list,
     inr tt).
Proof.
  unfold process_file.
  destruct (try_body p) as [t [e | []]]; cbn.
  - now rewrite <- app_assoc.
  - reflexivity.
Qed.

(** One iteration of the file loop on a file that opens. *)
Lemma process_file_opened (p : string) (ds : Dataset) :
  Open w p = inr (Some ds) ->
  process_file p
  = (gdal_Open p
       :: (trace (crop_dataset p ds)
           ++ match outcome (crop_dataset p ds) with
              | inl e => [print (error_line p e)]
              | inr _ => []
              end
           ++ [progress_bar_update 1])%list,
     inr tt).
Proof.
  intros O. rewrite process_file_eq, (try_body_open_some _ _ O). reflexivity.
Qed.

Lemma process_file_returns (p : string) : outcome (process_file p) = inr tt.
Proof. now rewrite process_file_eq. Qed.

(** The crop calls of one file's iteration are those of the [try] body. *)
Lemma process_file_translate_in (p dest : string) (src : Dataset)
    (win : SrcWin) :
  In (gdal_Translate dest src win) (trace (process_file p)) ->
  exists W H tl,
    Open w p = inr (Some src) /\
    RasterXSize src = inr W /\ RasterYSize src = inr H /\
    In tl (windows window_size step_size W H) /\
    gdal_Translate dest src win = translate_call p src tl.
Proof.
  rewrite process_file_eq. cbn [trace fst]. intros Hin.
  apply in_app_or in Hin as [Hin | Hin].
  - destruct (Open w p) as [e | [ds |]] eqn:O.
    + rewrite (try_body_open_raises _ _ O) in Hin.
      destruct Hin as [[=] | []].
    + rewrite (try_body_open_some _ _ O) in Hin.
      destruct Hin as [[=] | Hin].
      apply crop_dataset_in in Hin as (W & H & tl & HW & HH & Htl & E).
      assert (ds = src) as -> by (destruct tl; now injection E).
      exists W, H, tl. auto.
    + rewrite (try_body_open_none _ O) in Hin.
      destruct Hin as [[=] | []].
  - apply in_app_or in Hin as [Hin | [[=] | []]].
    destruct (outcome (try_body p));
      [destruct Hin as [[=] | []] | destruct Hin].
Qed.

End OneFile.

(** ** Observations on traces *)

Lemma translations_app (t1 t2 : list Event) :
  translations (t1 ++ t2) = (translations t1 ++ translations t2)%list.
Proof.
  induction t1 as [| ev t1 IH]; [reflexivity |].
  destruct ev; simpl; now rewrite ?IH.
Qed.

Lemma translations_in (t : list Event) (dest : string) (src : Dataset)
    (win : SrcWin) :
  In (dest, src, win) (translations t) <-> In (gdal_Translate dest src win) t.
Proof.
  induction t as [| ev t IH]; [reflexivity |].
  destruct ev; simpl; rewrite ?IH;
    try (split; [now right | now intros [[=] |]]).
  split; (intros [[=] | H]; [left; congruence | now right]).
Qed.

Lemma updates_app (t1 t2 : list Event) :
  updates (t1 ++ t2) = (updates t1 ++ updates t2)%list.
Proof.
  induction t1 as [| ev t1 IH]; [reflexivity |].
  destruct ev; simpl; now rewrite ?IH.
Qed.

Lemma origins_app (t1 t2 : list Event) :
  origins (t1 ++ t2) = (origins t1 ++ origins t2)%list.
Proof. unfold origins. now rewrite translations_app, map_app. Qed.

Lemma origins_prefix (t1 t2 : list Event) :
  prefix_of t1 t2 -> prefix_of (origins t1) (origins t2).
Proof. intros [r ->]. exists (origins r). apply origins_app. Qed.

Lemma translations_calls (w : World) (i o : string) (ws : Z * Z)
    (p : string) (ds : Dataset) (l : list (Z * Z)) :
  List.length (translations (map (translate_call w i o ws p ds) l))
  = List.length l.
Proof. induction l as [| [top left] l IH]; simpl; congruence. Qed.

Lemma origins_calls (w : World) (i o : string) (ws : Z * Z)
    (p : string) (ds : Dataset) (l : list (Z * Z)) :
  origins (map (translate_call w i o ws p ds) l) = l.
Proof.
  unfold origins. induction l as [| [top left] l IH]; simpl; congruence.
Qed.

(** ** The grid of one raster *)

Section Grid.

Variable window_size : Z * Z.
Variable step_size : Z.
Hypothesis step_pos : 0 < step_size.
Variables W H : Z.

Lemma length_rows {A B} (f : A -> B -> A * B) (rows : list A)
    (cols : list B) :
  List.length (flat_map (fun r => map (f r) cols) rows)
  = (List.length rows * List.length cols)%nat.
Proof.
  induction rows as [| r rows IH]; [reflexivity |].
  simpl. now rewrite length_app, length_map, IH.
Qed.

Lemma windows_length :
  Z.of_nat (List.length (windows window_size step_size W H))
  = Py.range_len 0 (H - snd window_size + 1) step_size
    * Py.range_len 0 (W - fst window_size + 1) step_size.
Proof.
  unfold windows. rewrite !range_pos by assumption.
  rewrite (length_rows (fun top left => (top, left))), !length_map, !length_seq.
  pose proof (range_len_nonneg (H - snd window_size + 1) _ step_pos).
  pose proof (range_len_nonneg (W - fst window_size + 1) _ step_pos).
  lia.
Qed.

(** An origin of the grid is a pair of multiples of the step, and its
    window lies inside the raster. *)
Lemma windows_in (top left : Z) :
  In (top, left) (windows window_size step_size W H) ->
  (0 <= left /\ left + fst window_size <= W /\
   0 <= top /\ top + snd window_size <= H) /\
  exists r c : nat,
    top = Z.of_nat r * step_size /\ left = Z.of_nat c * step_size.
Proof.
  unfold windows.
  destruct (Py.range 0 (H - snd window_size + 1) step_size)
    as [e | tops] eqn:Etops; [intros [] |].
  destruct (Py.range 0 (W - fst window_size + 1) step_size)
    as [e | lefts] eqn:Elefts; [intros [] |].
  intros Hin. apply in_flat_map in Hin as (top' & Htop & Hin).
  apply in_map_iff in Hin as (left' & [= -> ->] & Hleft).
  destruct (range_in _ _ step_pos _ _ Etops Htop) as [Ht [r Hr]].
  destruct (range_in _ _ step_pos _ _ Elefts Hleft) as [Hl [c Hc]].
  split; [lia | now exists r, c].
Qed.

(** The grid, row by row. *)
Lemma windows_rows :
  windows window_size step_size W H
  = flat_map
      (fun r => map (fun c => (Z.of_nat r * step_size, Z.of_nat c * step_size))
                    (seq 0 (Z.to_nat (Py.range_len
                                        0 (W - fst window_size + 1)
                                        step_size))))
      (seq 0 (Z.to_nat (Py.range_len 0 (H - snd window_size + 1) step_size))).
Proof.
  unfold windows. rewrite !range_pos by assumption.
  rewrite flat_map_concat_map, map_map, <- flat_map_concat_map.
  apply flat_map_ext. intros r. now rewrite map_map.
Qed.

Lemma windows_sorted :
  StronglySorted lex_lt (windows window_size step_size W H).
Proof.
  unfold windows.
  destruct (Py.range 0 (H - snd window_size + 1) step_size)
    as [e | tops] eqn:Etops; [constructor |].
  destruct (Py.range 0 (W - fst window_size + 1) step_size)
    as [e | lefts] eqn:Elefts; [constructor |].
  apply range_sorted in Etops, Elefts; try assumption.
  clear - Etops Elefts.
  induction Etops as [| top tops S IH Htop]; [constructor |].
  simpl. apply StronglySorted_app; [| exact IH |].
  - apply StronglySorted_map with (R := Z.lt); [| assumption].
    intros x y Hxy. right. simpl. auto.
  - intros a b Ha Hb.
    apply in_map_iff in Ha as (l1 & <- & _).
    apply in_flat_map in Hb as (top' & Hin & Hb).
    apply in_map_iff in Hb as (l2 & <- & _).
    left. simpl. rewrite Forall_forall in Htop. auto.
Qed.

End Grid.

(** ** The whole run *)

Section Run.

Variable w : World.
Variables input_directory output_directory : string.
Variable window_size : Z * Z.
Variable step_size : Z.

#[local] Abbreviation process_file' :=
  (process_file w input_directory output_directory window_size step_size).
#[local] Abbreviation process_all' :=
  (process_all w input_directory output_directory window_size step_size).
#[local] Abbreviation run :=
  (crop_tif_images_with_gdal w input_directory output_directory window_size
     step_size).

Lemma for_files (paths : list string) :
  for_ paths process_file'
  = (flat_map (fun p => trace (process_file' p)) paths, inr tt).
Proof. apply for_ok. intros p _. apply process_file_returns. Qed.

Lemma process_all_eq (paths : list string) :
  process_all' paths
  = (tqdm (List.length paths)
       :: (flat_map (fun p => trace (process_file' p)) paths
           ++ [progress_bar_close])%list,
     inr tt).
Proof. unfold process_all. now rewrite for_files. Qed.

(** The run when the output directory exists or can be created. *)
Lemma run_eq :
  exists_ w output_directory = true \/ makedirs w output_directory = None ->
  run
  = (((if exists_ w output_directory then []
       else [os_makedirs output_directory])
      ++ os_walk input_directory
      :: tqdm (List.length (tif_paths w input_directory))
      :: flat_map (fun p => trace (process_file' p))
                  (tif_paths w input_directory)
      ++ [progress_bar_close])%list,
     inr tt).
Proof.
  intros Hdir. unfold crop_tif_images_with_gdal.
  rewrite process_all_eq.
  destruct (exists_ w output_directory); [reflexivity |].
  destruct Hdir as [[=] | ->]. reflexivity.
Qed.

(** The run when the output directory is missing and cannot be created. *)
Lemma run_makedirs_raises (e : Exception) :
  exists_ w output_directory = false ->
  makedirs w output_directory = Some e ->
  run = ([os_makedirs output_directory], inl e).
Proof.
  intros Hex Hmk. unfold crop_tif_images_with_gdal.
  now rewrite Hex, Hmk.
Qed.

(** A crop call of the run is the call of one discovered file for one origin
    of the grid of the raster opened from it. *)
Lemma run_translate_in (dest : string) (src : Dataset) (win : SrcWin) :
  In (gdal_Translate dest src win) (trace run) ->
  exists p W H tl,
    In p (tif_paths w input_directory) /\
    Open w p = inr (Some src) /\
    RasterXSize src = inr W /\ RasterYSize src = inr H /\
    In tl (windows window_size step_size W H) /\
    gdal_Translate dest src win
    = translate_call w input_directory output_directory window_size p src tl.
Proof.
  unfold crop_tif_images_with_gdal. rewrite process_all_eq.
  intros Hin.
  assert (Hfiles : In (gdal_Translate dest src win)
                     (flat_map (fun p => trace (process_file' p))
                               (tif_paths w input_directory))).
  { destruct (exists_ w output_directory); cbn in Hin.
    - destruct Hin as [[=] | [[=] | Hin]].
      apply in_app_or in Hin as [Hin | [[=] | []]]. exact Hin.
    - destruct (makedirs w output_directory); cbn in Hin.
      + destruct Hin as [[=] | []].
      + destruct Hin as [[=] | [[=] | [[=] | Hin]]].
        apply in_app_or in Hin as [Hin | [[=] | []]]. exact Hin. }
  apply in_flat_map in Hfiles as (p & Hp & Hin').
  apply process_file_translate_in in Hin'
    as (W & H & tl & HO & HW & HH & Htl & E).
  exists p, W, H, tl. repeat split; assumption.
Qed.

End Run.

(** ** The tiling grid *)

(** C1. A raster of width [W] and height [H] that is opened and cropped
    without an error gets one crop call per grid position:
    [((H - h) / s + 1) * ((W - w) / s + 1)] calls when the window fits
    ([w <= W] and [h <= H]), and none otherwise (positive step [s], floor
    division). *)
Theorem tile_count (w : World) (input_directory output_directory : string)
    (window_size : Z * Z) (step_size : Z) (tif_path : string)
    (dataset : Dataset) (W H : Z) :
  0 < step_size ->
  Open w tif_path = inr (Some dataset) ->
  RasterXSize dataset = inr W -> RasterYSize dataset = inr H ->
  (forall dest win, Translate w dest dataset win = None) ->
  Z.of_nat
    (List.length
       (translations
          (trace (process_file w input_directory output_directory
                    window_size step_size tif_path))))
  = if (fst window_size <=? W) && (snd window_size <=? H)
    then ((H - snd window_size) / step_size + 1)
         * ((W - fst window_size) / step_size + 1)
    else 0.
Proof.
  intros Hs HO HW HH Hok.
  rewrite (process_file_opened _ _ _ _ _ _ _ HO).
  destruct (crop_dataset_prefix w input_directory output_directory
              window_size step_size tif_path dataset W H HW HH) as [_ Hfull].
  rewrite (crop_dataset_returns _ _ _ _ _ _ _ W H) in * by (auto; lia).
  rewrite (Hfull eq_refl).
  cbn [trace fst translations]. rewrite translations_app. cbn [translations].
  rewrite app_nil_r, translations_calls, windows_length by assumption.
  rewrite !axis_count by assumption.
  destruct (Z.leb_spec (fst window_size) W),
           (Z.leb_spec (snd window_size) H); cbn; lia.
Qed.

(** C2. Every crop window the run requests, for a raster of width [W] and
    height [H] and a positive step, lies inside the raster: [0 <= left],
    [right = left + w <= W], [0 <= top], [bottom = top + h <= H]; the
    request reads a [w] by [h] window at (left, top), and its file name is
    built from these four corners. *)
Theorem window_within_raster (w : World)
    (input_directory output_directory : string) (window_size : Z * Z)
    (step_size : Z) (dest : string) (src : Dataset)
    (left top xsize ysize W H : Z) :
  0 < step_size ->
  In (gdal_Translate dest src (left, top, xsize, ysize))
     (trace (crop_tif_images_with_gdal w input_directory output_directory
               window_size step_size)) ->
  RasterXSize src = inr W -> RasterYSize src = inr H ->
  let right := left + fst window_size in
  let bottom := top + snd window_size in
  (0 <= left /\ right <= W /\ 0 <= top /\ bottom <= H) /\
  xsize = fst window_size /\ ysize = snd window_size /\
  exists tif_path,
    In tif_path (tif_paths w input_directory) /\
    dest = os_path.join output_directory
             (cropped_img_name_of (relpath w tif_path input_directory)
                left top right bottom).
Proof.
  intros Hs Hin HW HH.
  apply run_translate_in in Hin
    as (p & W' & H' & [top' left'] & Hp & _ & HW' & HH' & Htl & E).
  assert (W' = W) as -> by congruence.
  assert (H' = H) as -> by congruence.
  injection E as -> -> -> -> ->. cbn [fst snd].
  apply windows_in in Htl as [Hb _]; [| assumption].
  cbn zeta. repeat split; try tauto. now exists p.
Qed.

Lemma tile_count_witness :
  Z.of_nat
    (List.length
       (translations
          (trace (process_file sample_world "in" "out" (1000, 1000) 1000
                    "in/a/b.tif"))))
  = 2.
Proof.
  apply (tile_count sample_world "in" "out" (1000, 1000) 1000 "in/a/b.tif"
           sample_dataset 2000 1500);
    [lia | reflexivity | reflexivity | reflexivity | reflexivity].
Defined.

Lemma window_within_raster_witness :
  (0 <= 1000 /\ 1000 + 1000 <= 2000 /\ 0 <= 0 /\ 0 + 1000 <= 1500) /\
  1000 = 1000 /\ 1000 = 1000 /\
  exists tif_path,
    In tif_path (tif_paths sample_world "in") /\
    "out/a_b_1000_0_2000_1000.tif"
    = os_path.join "out"
        (cropped_img_name_of (relpath sample_world tif_path "in")
           1000 0 (1000 + 1000) (0 + 1000)).
Proof.
  apply (window_within_raster sample_world "in" "out" (1000, 1000) 1000
           "out/a_b_1000_0_2000_1000.tif" sample_dataset
           1000 0 1000 1000 2000 1500);
    [lia | | reflexivity | reflexivity].
  vm_compute. tauto.
Defined.

(** C10. Within one file the crop calls follow the grid in row-major order:
    their origins (top, left) are an initial segment - the whole, when no
    crop raises - of the list that takes top = 0, s, 2s, ... and, for each
    top, left = 0, s, 2s, ...; so they increase strictly in lexicographic
    order. *)
Theorem row_major_order (w : World)
    (input_directory output_directory : string) (window_size : Z * Z)
    (step_size : Z) (tif_path : string) (dataset : Dataset) (W H : Z) :
  0 < step_size ->
  Open w tif_path = inr (Some dataset) ->
  RasterXSize dataset = inr W -> RasterYSize dataset = inr H ->
  let visited :=
    origins (trace (process_file w input_directory output_directory
                      window_size step_size tif_path)) in
  let rows :=
    if snd window_size <=? H
    then (H - snd window_size) / step_size + 1 else 0 in
  let columns :=
    if fst window_size <=? W
    then (W - fst window_size) / step_size + 1 else 0 in
  let grid :=
    flat_map
      (fun r => map (fun c => (Z.of_nat r * step_size, Z.of_nat c * step_size))
                    (seq 0 (Z.to_nat columns)))
      (seq 0 (Z.to_nat rows)) in
  prefix_of visited grid /\
  ((forall dest win, Translate w dest dataset win = None) ->
   visited = grid) /\
  StronglySorted lex_lt visited.
Proof.
  intros Hs HO HW HH visited rows columns grid.
  assert (Hgrid : grid = windows window_size step_size W H).
  { subst grid rows columns. rewrite windows_rows by assumption.
    now rewrite !axis_count by assumption. }
  destruct (crop_dataset_prefix w input_directory output_directory
              window_size step_size tif_path dataset W H HW HH)
    as [Hpre Hfull].
  assert (Hvis : visited
                 = origins (trace (crop_dataset w input_directory
                                     output_directory window_size step_size
                                     tif_path dataset))).
  { subst visited. rewrite (process_file_opened _ _ _ _ _ _ _ HO).
    cbn [trace fst]. unfold origins. cbn [translations].
    rewrite !translations_app.
    destruct (outcome _); cbn [translations]; now rewrite !app_nil_r. }
  assert (Hp : prefix_of visited grid).
  { rewrite Hvis, Hgrid.
    rewrite <- (origins_calls w input_directory output_directory window_size
                  tif_path dataset (windows window_size step_size W H)).
    now apply origins_prefix. }
  repeat split.
  - exact Hp.
  - intros Hok. rewrite Hvis, Hgrid, Hfull.
    + apply origins_calls.
    + apply (crop_dataset_returns _ _ _ _ _ _ _ W H); auto; lia.
  - apply (StronglySorted_prefix _ _ _ Hp). rewrite Hgrid.
    now apply windows_sorted.
Qed.

Lemma row_major_order_witness :
  let visited :=
    origins (trace (process_file disk_full_world "in" "out" (500, 500) 500
                      "in/a/b.tif")) in
  prefix_of visited
    [(0, 0); (0, 500); (0, 1000); (0, 1500);
     (500, 0); (500, 500); (500, 1000); (500, 1500);
     (1000, 0); (1000, 500); (1000, 1000); (1000, 1500)] /\
  ((forall dest win, Translate disk_full_world dest sample_dataset win = None)
   -> visited
      = [(0, 0); (0, 500); (0, 1000); (0, 1500);
         (500, 0); (500, 500); (500, 1000); (500, 1500);
         (1000, 0); (1000, 500); (1000, 1000); (1000, 1500)]) /\
  StronglySorted lex_lt visited.
Proof.
  apply (row_major_order disk_full_world "in" "out" (500, 500) 500
           "in/a/b.tif" sample_dataset 2000 1500);
    [lia | reflexivity | reflexivity | reflexivity].
Defined.

(** ** Loops that stop *)

Lemma bind_assoc {A B C} (m : M A) (f : A -> M B) (g : B -> M C) :
  bind (bind m f) g = bind m (fun a => bind (f a) g).
Proof.
  destruct m as [t [e | a]]; [reflexivity |]. simpl.
  destruct (f a) as [t1 [e1 | b]]; [reflexivity |]. simpl.
  destruct (g b) as [t2 r]. now rewrite app_assoc.
Qed.

Lemma for_app {A} (body : A -> M unit) (l1 l2 : list A) :
  for_ (l1 ++ l2) body = for_ l1 body ;;; for_ l2 body.
Proof.
  induction l1 as [| x l1 IH].
  - simpl. now destruct (for_ l2 body).
  - simpl. now rewrite IH, bind_assoc.
Qed.

Lemma for_map {A B} (f : A -> B) (body : B -> M unit) (l : list A) :
  for_ (map f l) body = for_ l (fun x => body (f x)).
Proof. induction l as [| x l IH]; simpl; [reflexivity | now rewrite IH]. Qed.

Lemma for_flat_map {A B} (g : A -> list B) (body : B -> M unit)
    (l : list A) :
  for_ (flat_map g l) body = for_ l (fun x => for_ (g x) body).
Proof.
  induction l as [| x l IH]; [reflexivity |].
  simpl. now rewrite for_app, IH.
Qed.

(** A loop whose first failing iteration is known runs up to it and
    stops. *)
Lemma for_stops {A} (body : A -> M unit) (l1 l2 : list A) (x : A)
    (e : Exception) :
  (forall y, In y l1 -> outcome (body y) = inr tt) ->
  outcome (body x) = inl e ->
  for_ (l1 ++ x :: l2) body
  = ((flat_map (fun y => trace (body y)) l1 ++ trace (body x))%list, inl e).
Proof.
  intros Hok Hx. rewrite for_app, (for_ok _ _ Hok). cbn [bind for_].
  rewrite (bind_raise _ _ e Hx). reflexivity.
Qed.

(** The two loops over one raster visit its grid as one loop would. *)
Lemma crop_dataset_flat (w : World) (i o : string) (ws : Z * Z) (s : Z)
    (p : string) (ds : Dataset) (W H : Z) :
  s <> 0 ->
  RasterXSize ds = inr W -> RasterYSize ds = inr H ->
  crop_dataset w i o ws s p ds
  = for_ (windows ws s W H)
         (fun tl => crop_window w i o ws p ds (fst tl) (snd tl)).
Proof.
  intros Hs HW HH. unfold crop_dataset, windows.
  rewrite HW, HH, !bind_lift. unfold Py.range.
  destruct (Z.eqb_spec s 0); [contradiction |].
  rewrite bind_lift, for_flat_map. apply for_ext. intros top _.
  now rewrite bind_lift, (for_map (fun left => (top, left))).
Qed.

(** ** Files that fail *)

(** C4, as the code has it.  A file for which [gdal.Open] returns [None] is
    skipped by the [continue] of line 37: no crop is requested for it and
    the script prints nothing about it; the progress bar still advances by
    one, and the loop goes on with the files that follow. *)
Theorem unopenable_file_skipped (w : World)
    (input_directory output_directory : string) (window_size : Z * Z)
    (step_size : Z) (tif_path : string) (rest : list string) :
  Open w tif_path = inr None ->
  let process_file :=
    process_file w input_directory output_directory window_size step_size in
  process_file tif_path
  = ([gdal_Open tif_path; progress_bar_update 1], inr tt) /\
  translations (trace (process_file tif_path)) = [] /\
  printed (trace (process_file tif_path)) = [] /\
  for_ (tif_path :: rest) process_file
  = ((trace (process_file tif_path) ++ trace (for_ rest process_file))%list,
     outcome (for_ rest process_file)).
Proof.
  intros O process_file'.
  assert (E : process_file' tif_path
              = ([gdal_Open tif_path; progress_bar_update 1], inr tt)).
  { subst process_file'.
    now rewrite process_file_eq, (try_body_open_none _ _ _ _ _ _ O). }
  rewrite for_cons, (bind_ok _ _ tt) by now rewrite E.
  rewrite E. repeat split.
Qed.

Lemma unopenable_file_skipped_witness :
  let process_file := process_file sample_world "in" "out" (1000, 1000) 1000 in
  process_file "in/a/c.TIF"
  = ([gdal_Open "in/a/c.TIF"; progress_bar_update 1], inr tt) /\
  translations (trace (process_file "in/a/c.TIF")) = [] /\
  printed (trace (process_file "in/a/c.TIF")) = [] /\
  for_ ["in/a/c.TIF"; "in/a/b.tif"] process_file
  = ((trace (process_file "in/a/c.TIF")
      ++ trace (for_ ["in/a/b.tif"] process_file))%list,
     outcome (for_ ["in/a/b.tif"] process_file)).
Proof.
  apply (unopenable_file_skipped sample_world "in" "out" (1000, 1000) 1000
           "in/a/c.TIF" ["in/a/b.tif"]).
  reflexivity.
Defined.

(** C4, as stated, fails: in the sample run [gdal.Open] returns [None] for
    [in/a/c.TIF], and the number of lines printed for that file is not one
    (it is zero). *)
Lemma unopenable_file_not_logged :
  Open sample_world "in/a/c.TIF" = inr None /\
  List.length
    (printed (trace (process_file sample_world "in" "out" (1000, 1000) 1000
                       "in/a/c.TIF")))
  <> 1%nat.
Proof. split; [reflexivity | vm_compute; discriminate]. Qed.

(** C5. An exception raised in the [try] body of a file - by [gdal.Open],
    by reading the raster size, by [range] or by a crop - is caught by the
    handler of that file.  The body is left where it raised: either no
    window was tried (the open, the size or [range] raised), or the crops
    requested are those of the grid up to and including the first one that
    raised, and none of the windows after it.  Nothing is undone; one line
    [Error processing {path}: {message}] is printed, the progress bar
    advances, and the loop goes on with the next file; the loop over the
    files itself never raises. *)
Theorem file_errors_caught (w : World)
    (input_directory output_directory : string) (window_size : Z * Z)
    (step_size : Z) (tif_path : string) (e : Exception)
    (rest : list string) :
  let try_body :=
    try_body w input_directory output_directory window_size step_size in
  let process_file :=
    process_file w input_directory output_directory window_size step_size in
  outcome (try_body tif_path) = inl e ->
  process_file tif_path
  = ((trace (try_body tif_path)
      ++ [print ("Error processing " ++ tif_path ++ ": " ++ message e);
          progress_bar_update 1])%list,
     inr tt) /\
  for_ (tif_path :: rest) process_file
  = ((trace (process_file tif_path) ++ trace (for_ rest process_file))%list,
     inr tt) /\
  (trace (try_body tif_path) = [gdal_Open tif_path] \/
   exists dataset W H done failing remaining,
     Open w tif_path = inr (Some dataset) /\
     RasterXSize dataset = inr W /\ RasterYSize dataset = inr H /\
     windows window_size step_size W H
     = (done ++ failing :: remaining)%list /\
     (forall tl, In tl done ->
        outcome (crop_window w input_directory output_directory window_size
                   tif_path dataset (fst tl) (snd tl)) = inr tt) /\
     outcome (crop_window w input_directory output_directory window_size
                tif_path dataset (fst failing) (snd failing)) = inl e /\
     trace (try_body tif_path)
     = gdal_Open tif_path
         :: map (translate_call w input_directory output_directory
                   window_size tif_path dataset)
                (done ++ [failing])).
Proof.
  intros try_body' process_file' R. subst try_body' process_file'.
  split; [| split].
  - now rewrite process_file_eq, R.
  - rewrite for_cons, (bind_ok _ _ tt) by apply process_file_returns.
    now rewrite for_files.
  - destruct (Open w tif_path) as [e0 | [ds |]] eqn:O.
    + left. now rewrite (try_body_open_raises _ _ _ _ _ _ _ O).
    + rewrite (try_body_open_some _ _ _ _ _ _ _ O) in *.
      cbn [trace outcome fst snd] in *.
      destruct (RasterXSize ds) as [ex | W] eqn:HW.
      { left. unfold crop_dataset. now rewrite HW. }
      destruct (RasterYSize ds) as [ey | H] eqn:HH.
      { left. unfold crop_dataset. now rewrite HW, HH. }
      destruct (Z.eq_dec step_size 0) as [-> | Hs].
      { left. unfold crop_dataset. now rewrite HW, HH, !bind_lift. }
      rewrite (crop_dataset_flat _ _ _ _ _ _ _ W H) in * by assumption.
      apply for_raise in R as (done & failing & remaining & Hg & Hd & Hf & Ht).
      right. exists ds, W, H, done, failing, remaining.
      repeat split; try assumption.
      f_equal. rewrite Ht, map_app, <- flat_map_singleton. reflexivity.
    + rewrite (try_body_open_none _ _ _ _ _ _ O) in R. discriminate R.
Qed.

Lemma file_errors_caught_witness :
  process_file disk_full_world "in" "out" (1000, 1000) 500 "in/a/b.tif"
  = ((trace (try_body disk_full_world "in" "out" (1000, 1000) 500
               "in/a/b.tif")
      ++ [print ("Error processing " ++ "in/a/b.tif" ++ ": "
                 ++ "No space left on device");
          progress_bar_update 1])%list,
     inr tt) /\
  for_ ["in/a/b.tif"; "in/a/c.TIF"]
       (process_file disk_full_world "in" "out" (1000, 1000) 500)
  = ((trace (process_file disk_full_world "in" "out" (1000, 1000) 500
               "in/a/b.tif")
      ++ trace (for_ ["in/a/c.TIF"]
                  (process_file disk_full_world "in" "out" (1000, 1000)
                     500)))%list,
     inr tt) /\
  (trace (try_body disk_full_world "in" "out" (1000, 1000) 500 "in/a/b.tif")
   = [gdal_Open "in/a/b.tif"] \/
   exists dataset W H done failing remaining,
     Open disk_full_world "in/a/b.tif" = inr (Some dataset) /\
     RasterXSize dataset = inr W /\ RasterYSize dataset = inr H /\
     windows (1000, 1000) 500 W H = (done ++ failing :: remaining)%list /\
     (forall tl, In tl done ->
        outcome (crop_window disk_full_world "in" "out" (1000, 1000)
                   "in/a/b.tif" dataset (fst tl) (snd tl)) = inr tt) /\
     outcome (crop_window disk_full_world "in" "out" (1000, 1000)
                "in/a/b.tif" dataset (fst failing) (snd failing))
     = inl (mkException "No space left on device") /\
     trace (try_body disk_full_world "in" "out" (1000, 1000) 500
              "in/a/b.tif")
     = gdal_Open "in/a/b.tif"
         :: map (translate_call disk_full_world "in" "out" (1000, 1000)
                   "in/a/b.tif" dataset)
                (done ++ [failing])).
Proof.
  apply (file_errors_caught disk_full_world "in" "out" (1000, 1000) 500
           "in/a/b.tif" (mkException "No space left on device")
           ["in/a/c.TIF"]).
  reflexivity.
Defined.

(** The sample failure: the third of six windows raises, and the three
    windows after it are never requested. *)
Example half_cropped_file :
  process_file disk_full_world "in" "out" (1000, 1000) 500 "in/a/b.tif"
  = ([gdal_Open "in/a/b.tif";
      gdal_Translate "out/a_b_0_0_1000_1000.tif" sample_dataset
        (0, 0, 1000, 1000);
      gdal_Translate "out/a_b_500_0_1500_1000.tif" sample_dataset
        (500, 0, 1000, 1000);
      gdal_Translate "out/a_b_1000_0_2000_1000.tif" sample_dataset
        (1000, 0, 1000, 1000);
      print "Error processing in/a/b.tif: No space left on device";
      progress_bar_update 1],
     inr tt) /\
  windows (1000, 1000) 500 2000 1500
  = [(0, 0); (0, 500); (0, 1000); (500, 0); (500, 500); (500, 1000)].
Proof. split; reflexivity. Qed.

(** ** Progress and termination *)

(** C7. Every attempt at a file - opened and cropped, left half-way by an
    error, unopenable, or raising at once - ends with exactly one
    [progress_bar.update(1)] and returns; when the output directory exists
    or can be created, the run attempts every discovered file in turn,
    then closes the progress bar and returns [None]. *)
Theorem progress_once_per_file (w : World)
    (input_directory output_directory : string) (window_size : Z * Z)
    (step_size : Z) :
  exists_ w output_directory = true \/ makedirs w output_directory = None ->
  let process_file :=
    process_file w input_directory output_directory window_size step_size in
  let run :=
    crop_tif_images_with_gdal w input_directory output_directory window_size
      step_size in
  let discovered := tif_paths w input_directory in
  (forall tif_path, exists attempt,
      process_file tif_path
      = ((attempt ++ [progress_bar_update 1])%list, inr tt) /\
      updates attempt = []) /\
  (exists setup,
      run = ((setup
              ++ tqdm (List.length discovered)
              :: flat_map (fun p => trace (process_file p)) discovered
              ++ [progress_bar_close])%list,
             inr tt) /\
      updates setup = []) /\
  updates (trace run) = repeat 1 (List.length discovered).
Proof.
  intros Hdir process_file' run discovered.
  assert (Hfile : forall p, exists attempt,
             process_file' p
             = ((attempt ++ [progress_bar_update 1])%list, inr tt) /\
             updates attempt = []).
  { intros p. subst process_file'. rewrite process_file_eq.
    eexists. split; [rewrite app_assoc; reflexivity |].
    rewrite updates_app, try_body_updates.
    now destruct (outcome _). }
  assert (Hall : forall paths,
             updates (flat_map (fun p => trace (process_file' p)) paths)
             = repeat 1 (List.length paths)).
  { induction paths as [| p paths IH]; [reflexivity |].
    cbn [flat_map]. rewrite updates_app, IH.
    destruct (Hfile p) as (attempt & -> & U). cbn [trace fst].
    now rewrite updates_app, U. }
  subst run. rewrite (run_eq _ _ _ _ _ Hdir). fold process_file' discovered.
  split; [exact Hfile |]. split.
  - exists ((if exists_ w output_directory then []
             else [os_makedirs output_directory])
            ++ [os_walk input_directory])%list.
    split; [now rewrite <- app_assoc | now destruct (exists_ w _)].
  - cbn [trace fst]. rewrite updates_app. cbn [updates].
    rewrite updates_app, Hall. cbn [updates].
    rewrite app_nil_r. now destruct (exists_ w _).
Qed.

Lemma progress_once_per_file_witness :
  updates (trace (crop_tif_images_with_gdal disk_full_world "in" "out"
                    (1000, 1000) 1000))
  = [1; 1].
Proof.
  apply (progress_once_per_file disk_full_world "in" "out" (1000, 1000) 1000).
  right. reflexivity.
Defined.

(** ** The output directory *)

(** C8. When the output directory does not exist, [os.makedirs] is the first
    call of the run, before the walk of the input directory; when it raises,
    the exception leaves the function at once: no directory is walked, no
    file is opened and no crop is requested. *)
Theorem output_directory_first (w : World)
    (input_directory output_directory : string) (window_size : Z * Z)
    (step_size : Z) :
  exists_ w output_directory = false ->
  let run :=
    crop_tif_images_with_gdal w input_directory output_directory window_size
      step_size in
  match makedirs w output_directory with
  | Some e => run = ([os_makedirs output_directory], inl e)
  | None =>
      exists files,
        run = (os_makedirs output_directory :: os_walk input_directory
                 :: files, inr tt)
  end.
Proof.
  intros Hex run.
  destruct (makedirs w output_directory) as [e |] eqn:Hmk.
  - now apply run_makedirs_raises.
  - subst run. rewrite run_eq by now right. rewrite Hex.
    eexists. reflexivity.
Qed.

Lemma output_directory_first_witness :
  crop_tif_images_with_gdal read_only_world "in" "out" (1000, 1000) 1000
  = ([os_makedirs "out"], inl (mkException "Permission denied")).
Proof.
  apply (output_directory_first read_only_world "in" "out" (1000, 1000) 1000).
  reflexivity.
Defined.

(** ** Strings *)

Lemma append_nil_r (s : string) : s ++ "" = s.
Proof. induction s; simpl; congruence. Qed.

Lemma append_assoc (a b c : string) : (a ++ b) ++ c = a ++ b ++ c.
Proof. induction a; simpl; congruence. Qed.

Lemma append_cons_assoc (a b d : string) (c : ascii) :
  a ++ String c (b ++ d) = (a ++ String c b) ++ d.
Proof. now rewrite append_assoc. Qed.

Lemma length_append (a b : string) :
  String.length (a ++ b) = (String.length a + String.length b)%nat.
Proof. induction a; simpl; congruence. Qed.

Lemma append_inv_head (a b c : string) : a ++ b = a ++ c -> b = c.
Proof. induction a; simpl; [auto | intros [= H]; auto]. Qed.

Lemma occurs_append (c : ascii) (a b : string) :
  occurs c (a ++ b) <-> occurs c a \/ occurs c b.
Proof. induction a; simpl; tauto. Qed.

(** A string splits in one way only at the last occurrence of a character. *)
Lemma split_last_unique (c : ascii) (a a' b b' : string) :
  ~ occurs c b -> ~ occurs c b' ->
  a ++ String c b = a' ++ String c b' -> a = a' /\ b = b'.
Proof.
  intros Hb Hb'. revert a'.
  induction a as [| x a IH]; intros [| x' a'] E; simpl in E.
  - injection E as ->. auto.
  - injection E as <- ->. exfalso. apply Hb.
    apply occurs_append. right. now left.
  - injection E as -> <-. exfalso. apply Hb'.
    apply occurs_append. right. now left.
  - injection E as -> E. destruct (IH a' E) as [-> ->]. auto.
Qed.

Lemma replace_append (old new : ascii) (a b : string) :
  Py.replace old new (a ++ b)
  = Py.replace old new a ++ Py.replace old new b.
Proof. induction a; simpl; congruence. Qed.

Lemma replace_removes (old new : ascii) (s : string) :
  old <> new -> ~ occurs old (Py.replace old new s).
Proof.
  intros Hne. induction s as [| c s IH]; simpl; [tauto |].
  destruct (Ascii.eqb_spec c old); intros [E | H]; auto; congruence.
Qed.

Lemma lower_append (a b : string) :
  Py.lower (a ++ b) = Py.lower a ++ Py.lower b.
Proof. induction a; simpl; congruence. Qed.

Lemma endswith_iff (s suffix : string) :
  Py.endswith s suffix = true <-> exists pre, s = pre ++ suffix.
Proof.
  induction s as [| c s IH].
  - change (Py.endswith "" suffix) with (String.eqb "" suffix || false).
    rewrite orb_false_r, String.eqb_eq. split.
    + intros <-. now exists "".
    + intros [[| c pre] E]; [auto | discriminate].
  - change (Py.endswith (String c s) suffix)
      with (String.eqb (String c s) suffix || Py.endswith s suffix).
    rewrite orb_true_iff, IH, String.eqb_eq. split.
    + intros [<- | [pre ->]]; [now exists "" | now exists (String c pre)].
    + intros [[| c' pre] E]; [now left |].
      injection E as -> ->. right. now exists pre.
Qed.

Lemma lower_split (s a b : string) :
  Py.lower s = a ++ b ->
  exists a' b', s = a' ++ b' /\ Py.lower a' = a /\ Py.lower b' = b.
Proof.
  revert s. induction a as [| c a IH]; intros s E.
  - exists "", s. auto.
  - destruct s as [| x s]; [discriminate |]. simpl in E.
    injection E as <- E. destruct (IH s E) as (a' & b' & -> & <- & <-).
    now exists (String x a'), b'.
Qed.

(** ** [rfind], [take] and [drop] *)

Lemma rfind_absent (c : ascii) (s : string) :
  ~ occurs c s -> Py.rfind c s = -1.
Proof.
  induction s as [| a s IH]; simpl; [reflexivity |]. intros H.
  rewrite IH by tauto. simpl.
  destruct (Ascii.eqb_spec a c); [tauto | reflexivity].
Qed.

Lemma rfind_range (c : ascii) (s : string) :
  -1 <= Py.rfind c s < Z.of_nat (String.length s).
Proof.
  induction s as [| a s IH]; simpl; [lia |].
  destruct (Z.leb_spec 0 (Py.rfind c s)); [lia |].
  destruct (Ascii.eqb a c); lia.
Qed.

(** [rfind] finds the last occurrence. *)
Lemma rfind_last (c : ascii) (pre post : string) :
  ~ occurs c post ->
  Py.rfind c (pre ++ String c post) = Z.of_nat (String.length pre).
Proof.
  intros H. induction pre as [| a pre IH].
  - simpl. rewrite (rfind_absent _ _ H). simpl.
    now rewrite Ascii.eqb_refl.
  - cbn [append Py.rfind String.length]. rewrite IH.
    destruct (Z.leb_spec 0 (Z.of_nat (String.length pre))); lia.
Qed.

Lemma rfind_present (c : ascii) (s : string) :
  0 <= Py.rfind c s ->
  exists pre post,
    s = pre ++ String c post /\ ~ occurs c post /\
    Py.rfind c s = Z.of_nat (String.length pre).
Proof.
  induction s as [| a s IH]; simpl; [lia |].
  destruct (Z.leb_spec 0 (Py.rfind c s)) as [Hr | Hr].
  - intros _. destruct (IH Hr) as (pre & post & -> & Hpost & E).
    exists (String a pre), post. repeat split; auto.
    rewrite E. simpl String.length. lia.
  - destruct (Ascii.eqb_spec a c) as [-> | Hne]; [| lia]. intros _.
    exists "", s. repeat split; auto.
    intros Hocc. clear IH. induction s as [| b s IHs]; [exact Hocc |].
    simpl in Hr, Hocc.
    destruct (Z.leb_spec 0 (Py.rfind c s)); [lia |].
    destruct (Ascii.eqb_spec b c); [lia |].
    destruct Hocc; [congruence | apply IHs; [lia | assumption]].
Qed.

(** An occurrence past a prefix puts [rfind] past that prefix. *)
Lemma rfind_append_ge (c : ascii) (pre post : string) :
  occurs c post -> Z.of_nat (String.length pre) <= Py.rfind c (pre ++ post).
Proof.
  intros H. induction pre as [| a pre IH].
  - simpl. destruct (Z.leb_spec 0 (Py.rfind c post)); [assumption |].
    exfalso.
    destruct (Z.eq_dec (Py.rfind c post) (-1)) as [E | E];
      [| pose proof (rfind_range c post); lia].
    clear - H E. induction post as [| b s IH]; [exact H |].
    simpl in E, H.
    destruct (Z.leb_spec 0 (Py.rfind c s)); [lia |].
    destruct (Ascii.eqb_spec b c); [lia |].
    destruct H; [congruence |]. apply IH; [assumption |].
    pose proof (rfind_range c s). lia.
  - cbn [append Py.rfind String.length].
    destruct (Z.leb_spec 0 (Py.rfind c (pre ++ post))); lia.
Qed.

Lemma take_append (a b : string) : Py.take (String.length a) (a ++ b) = a.
Proof. induction a; simpl; [now destruct b | congruence]. Qed.

Lemma drop_append (a b : string) : Py.drop (String.length a) (a ++ b) = b.
Proof. induction a; simpl; auto. Qed.

(** ** [os.path.splitext] and [os.path.join] *)

(** [splitext] cuts the path in two; the extension is empty or starts at the
    last dot of the path and holds no separator. *)
Lemma splitext_spec (p base ext : string) :
  os_path.splitext p = (base, ext) ->
  p = base ++ ext /\
  (ext = "" \/
   exists post,
     ext = String os_path.extsep post /\
     ~ occurs os_path.extsep post /\ ~ occurs os_path.sep post).
Proof.
  unfold os_path.splitext.
  destruct (Z.ltb_spec (Py.rfind os_path.sep p) (Py.rfind os_path.extsep p))
    as [Hlt | _].
  2: { intros [= <- <-]. rewrite append_nil_r. auto. }
  destruct (os_path.find_non_dot _ _ _).
  2: { intros [= <- <-]. rewrite append_nil_r. auto. }
  pose proof (rfind_range os_path.sep p) as Hsep.
  destruct (rfind_present os_path.extsep p) as (pre & post & -> & Hdot & E);
    [lia |].
  rewrite E in *. unfold Py.slice_to, Py.slice_from.
  rewrite Nat2Z.id, take_append, drop_append. intros [= <- <-].
  split; [reflexivity |]. right. exists post. repeat split; auto.
  intros Hocc.
  apply (rfind_append_ge _ (pre ++ String os_path.extsep "")) in Hocc.
  rewrite append_assoc, length_append in Hocc. simpl in Hocc, Hlt. lia.
Qed.

(** On a path whose last dot is known, [splitext] cuts there or not at
    all. *)
Lemma splitext_cases (pre post : string) :
  ~ occurs os_path.extsep post ->
  let p := pre ++ String os_path.extsep post in
  os_path.splitext p = (pre, String os_path.extsep post) \/
  os_path.splitext p = (p, "").
Proof.
  intros Hdot p. unfold os_path.splitext. subst p.
  rewrite (rfind_last _ _ _ Hdot).
  destruct (_ <? _); [| now right].
  destruct (os_path.find_non_dot _ _ _); [| now right].
  left. unfold Py.slice_to, Py.slice_from.
  now rewrite Nat2Z.id, take_append, drop_append.
Qed.

(** A name without a separator is put right behind the directory. *)
Lemma join_plain (a b : string) :
  ~ occurs os_path.sep b ->
  os_path.join a b
  = a ++ (if String.eqb a "" || Py.endswith a "/" then "" else "/") ++ b.
Proof.
  intros Hb. unfold os_path.join.
  assert (Py.startswith b (String os_path.sep "") = false) as ->.
  { destruct b as [| c b]; [reflexivity |].
    unfold Py.startswith. cbn [String.prefix].
    destruct (ascii_dec os_path.sep c) as [<- |]; [| reflexivity].
    exfalso. apply Hb. now left. }
  now destruct (_ || _).
Qed.

(** ** [str] of an integer *)

Lemma str_inj (a b : Z) : Py.str a = Py.str b -> a = b.
Proof.
  unfold Py.str. intros E.
  apply (f_equal NilEmpty.int_of_string) in E.
  rewrite !NilEmpty.isi in E. injection E as E.
  apply (f_equal Z.of_int) in E. now rewrite !DecimalZ.of_to in E.
Qed.

Lemma string_of_uint_chars (d : Decimal.uint) (c : ascii) :
  occurs c (NilEmpty.string_of_uint d) -> int_char c = true.
Proof.
  induction d; simpl; intros H; try (destruct H as [<- | H]; auto).
  contradiction.
Qed.

(** The decimal notation holds digits and a sign only. *)
Lemma str_chars (n : Z) (c : ascii) :
  occurs c (Py.str n) -> int_char c = true.
Proof.
  unfold Py.str. destruct (Z.to_int n) as [d | d]; simpl.
  - apply string_of_uint_chars.
  - intros [<- | H]; [reflexivity | now apply string_of_uint_chars in H].
Qed.

Lemma str_no_char (n : Z) (c : ascii) :
  int_char c = false -> ~ occurs c (Py.str n).
Proof. intros Hc H. apply str_chars in H. congruence. Qed.

(** ** Names of the tiles *)

Lemma cropped_img_name_eq (relative_path base_name ext : string)
    (left top right bottom : Z) :
  os_path.splitext relative_path = (base_name, ext) ->
  cropped_img_name_of relative_path left top right bottom
  = Py.replace "/" "_" base_name
      ++ "_" ++ Py.str left ++ "_" ++ Py.str top
      ++ "_" ++ Py.str right ++ "_" ++ Py.str bottom ++ ext.
Proof. unfold cropped_img_name_of. now intros ->. Qed.

(** A tile name holds no path separator. *)
Lemma cropped_img_name_plain (relative_path : string)
    (left top right bottom : Z) :
  ~ occurs "/" (cropped_img_name_of relative_path left top right bottom).
Proof.
  destruct (os_path.splitext relative_path) as [base ext] eqn:S.
  rewrite (cropped_img_name_eq _ _ _ _ _ _ _ S).
  destruct (splitext_spec _ _ _ S) as [_ Hext].
  cbn [append]. rewrite !occurs_append. cbn [occurs].
  rewrite !occurs_append. cbn [occurs]. rewrite !occurs_append.
  cbn [occurs]. rewrite !occurs_append. cbn [occurs].
  rewrite !occurs_append.
  assert (Hs := fun n => str_no_char n "/" eq_refl).
  assert (Hb := replace_removes "/" "_" base ltac:(discriminate)).
  assert (He : ~ occurs "/" ext).
  { destruct Hext as [-> | (post & -> & _ & Hpost)]; [tauto |].
    intros [[=] | H]; auto. }
  pose proof (Hs left). pose proof (Hs top).
  pose proof (Hs right). pose proof (Hs bottom).
  intuition discriminate.
Qed.

(** Every crop call of the run is a crop call of the iteration of one
    discovered file. *)
Lemma run_crops_by_file (w : World)
    (input_directory output_directory : string) (window_size : Z * Z)
    (step_size : Z) (dest : string) (src : Dataset) (win : SrcWin) :
  In (gdal_Translate dest src win)
     (trace (crop_tif_images_with_gdal w input_directory output_directory
               window_size step_size)) ->
  exists tif_path,
    In tif_path (tif_paths w input_directory) /\
    In (gdal_Translate dest src win)
       (trace (process_file w input_directory output_directory window_size
                 step_size tif_path)).
Proof.
  unfold crop_tif_images_with_gdal. rewrite process_all_eq. intros Hin.
  apply in_flat_map.
  destruct (exists_ w output_directory); cbn in Hin.
  - destruct Hin as [[=] | [[=] | Hin]].
    apply in_app_or in Hin as [Hin | [[=] | []]]. exact Hin.
  - destruct (makedirs w output_directory); cbn in Hin.
    + destruct Hin as [[=] | []].
    + destruct Hin as [[=] | [[=] | [[=] | Hin]]].
      apply in_app_or in Hin as [Hin | [[=] | []]]. exact Hin.
Qed.

(** C3. Every crop call made while a source file is processed crops the
    raster opened from that file, and its destination is named after that
    file and the window: the path of the file relative to the input
    directory is split by [splitext] into a base and its final extension,
    the separators of the base are replaced by underscores, and the name is
    the flat base, the four corners in decimal, each behind an underscore,
    and the extension.  The name holds no separator, so the tile lies in the
    output directory itself. *)
Theorem tile_file_name (w : World)
    (input_directory output_directory : string) (window_size : Z * Z)
    (step_size : Z) (tif_path dest : string) (src : Dataset)
    (win : SrcWin) :
  In (gdal_Translate dest src win)
     (trace (process_file w input_directory output_directory window_size
               step_size tif_path)) ->
  Open w tif_path = inr (Some src) /\
  exists base ext left top,
    os_path.splitext (relpath w tif_path input_directory) = (base, ext) /\
    relpath w tif_path input_directory = base ++ ext /\
    (ext = "" \/
     exists post, ext = String "." post /\
                  ~ occurs "." post /\ ~ occurs "/" post) /\
    win = (left, top, fst window_size, snd window_size) /\
    let right := left + fst window_size in
    let bottom := top + snd window_size in
    let flat_base := Py.replace "/" "_" base in
    let name :=
      flat_base ++ "_" ++ Py.str left ++ "_" ++ Py.str top
        ++ "_" ++ Py.str right ++ "_" ++ Py.str bottom ++ ext in
    ~ occurs "/" name /\
    dest = output_directory
             ++ (if String.eqb output_directory ""
                    || Py.endswith output_directory "/"
                 then "" else "/")
             ++ name.
Proof.
  intros Hin.
  apply process_file_translate_in in Hin
    as (W & H & [top left] & HO & _ & _ & _ & E).
  split; [exact HO |].
  injection E as -> ->.
  destruct (os_path.splitext (relpath w tif_path input_directory))
    as [base ext] eqn:S.
  destruct (splitext_spec _ _ _ S) as [Hcut Hext].
  exists base, ext, left, top. cbn [fst snd].
  repeat split; try assumption.
  - rewrite <- (cropped_img_name_eq _ _ _ _ _ _ _ S).
    apply cropped_img_name_plain.
  - rewrite <- (cropped_img_name_eq _ _ _ _ _ _ _ S).
    apply join_plain, cropped_img_name_plain.
Qed.

Lemma tile_file_name_witness :
  Open sample_world "in/a/b.tif" = inr (Some sample_dataset) /\
  exists base ext left top,
    os_path.splitext (relpath sample_world "in/a/b.tif" "in") = (base, ext) /\
    relpath sample_world "in/a/b.tif" "in" = base ++ ext /\
    (ext = "" \/
     exists post, ext = String "." post /\
                  ~ occurs "." post /\ ~ occurs "/" post) /\
    (1000, 0, 1000, 1000) = (left, top, 1000, 1000) /\
    let name :=
      Py.replace "/" "_" base ++ "_" ++ Py.str left ++ "_" ++ Py.str top
        ++ "_" ++ Py.str (left + 1000) ++ "_" ++ Py.str (top + 1000)
        ++ ext in
    ~ occurs "/" name /\
    "out/a_b_1000_0_2000_1000.tif" = "out" ++ "/" ++ name.
Proof.
  apply (tile_file_name sample_world "in" "out" (1000, 1000) 1000
           "in/a/b.tif" "out/a_b_1000_0_2000_1000.tif" sample_dataset
           (1000, 0, 1000, 1000)).
  vm_compute. tauto.
Defined.

(** ** Names of distinct tiles *)

Lemma lower_char_dot (c : ascii) : Py.lower_char c = "."%char -> c = "."%char.
Proof.
  destruct c as [[] [] [] [] [] [] [] []]; vm_compute; intros E;
    try discriminate E; reflexivity.
Qed.

(** A character that folds to a letter of [tif] is no underscore. *)
Lemma lower_char_letter (c x : ascii) :
  Py.lower_char c = x ->
  x = "t"%char \/ x = "i"%char \/ x = "f"%char ->
  c <> "."%char /\ c <> "_"%char.
Proof.
  intros E [-> | [-> | ->]];
    destruct c as [[] [] [] [] [] [] [] []]; vm_compute in E;
    try discriminate E; split; discriminate.
Qed.

(** A name that passes the test of line 28 ends in a dot and three
    letters. *)
Lemma is_tif_split (file : string) :
  is_tif file = true ->
  exists pre post,
    file = pre ++ String "." post /\
    ~ occurs "." post /\ ~ occurs "_" post.
Proof.
  unfold is_tif. intros H. apply endswith_iff in H as [pre' E].
  apply lower_split in E as (pre & suffix & -> & _ & E).
  destruct suffix as [| c0 [| c1 [| c2 [| c3 [| ? ?]]]]]; try discriminate E.
  injection E as E0 E1 E2 E3.
  apply lower_char_dot in E0 as ->.
  apply lower_char_letter in E1 as [? ?]; [| tauto].
  apply lower_char_letter in E2 as [? ?]; [| tauto].
  apply lower_char_letter in E3 as [? ?]; [| tauto].
  exists pre, (String c1 (String c2 (String c3 ""))).
  cbn [occurs]. intuition congruence.
Qed.

Lemma is_tif_append (dir file : string) :
  is_tif file = true -> is_tif (dir ++ file) = true.
Proof.
  unfold is_tif. rewrite !endswith_iff, lower_append. intros [pre ->].
  exists (Py.lower dir ++ pre). now rewrite append_assoc.
Qed.

(** The extension of a [.tif] path holds no underscore. *)
Lemma tif_ext (relative_path base ext : string) :
  is_tif relative_path = true ->
  os_path.splitext relative_path = (base, ext) ->
  ~ occurs "_" ext.
Proof.
  intros Htif S.
  apply is_tif_split in Htif as (pre & post & -> & Hdot & Hus).
  destruct (splitext_cases pre post Hdot) as [E | E];
    unfold os_path.extsep in E; rewrite E in S; injection S as <- <-.
  - intros [[=] | H]. auto.
  - intros [].
Qed.

(** The name of a tile determines its flat base, its corners and its
    extension, when the extension holds no underscore. *)
Lemma name_parts_inj (base1 base2 ext1 ext2 : string)
    (l1 t1 r1 b1 l2 t2 r2 b2 : Z) :
  (ext1 = "" \/ exists post, ext1 = String "." post /\ ~ occurs "." post) ->
  (ext2 = "" \/ exists post, ext2 = String "." post /\ ~ occurs "." post) ->
  ~ occurs "_" ext1 -> ~ occurs "_" ext2 ->
  base1 ++ "_" ++ Py.str l1 ++ "_" ++ Py.str t1
    ++ "_" ++ Py.str r1 ++ "_" ++ Py.str b1 ++ ext1
  = base2 ++ "_" ++ Py.str l2 ++ "_" ++ Py.str t2
      ++ "_" ++ Py.str r2 ++ "_" ++ Py.str b2 ++ ext2 ->
  base1 = base2 /\ (l1, t1, r1, b1) = (l2, t2, r2, b2) /\ ext1 = ext2.
Proof.
  intros Hd1 Hd2 He1 He2 E.
  assert (Hus := fun n => str_no_char n "_" eq_refl).
  assert (Hdot := fun n => str_no_char n "." eq_refl).
  cbn [append] in E. rewrite !append_cons_assoc in E.
  rewrite <- (append_cons_assoc _ (Py.str b1) ext1) in E.
  rewrite <- (append_cons_assoc _ (Py.str b2) ext2) in E.
  assert (Hlast : forall b ext, ~ occurs "_" ext ->
                    ~ occurs "_" (Py.str b ++ ext)).
  { intros b ext He H. apply occurs_append in H as [H | H];
      [now apply (Hus b) | now apply He]. }
  apply split_last_unique in E as [E Elast]; try now apply Hlast.
  apply split_last_unique in E as [E Er]; try apply Hus.
  apply split_last_unique in E as [E Et]; try apply Hus.
  apply split_last_unique in E as [E El]; try apply Hus.
  apply str_inj in Er, Et, El. subst.
  assert (Py.str b1 = Py.str b2 /\ ext1 = ext2) as [Eb ->].
  { destruct Hd1 as [-> | (p1 & -> & Hp1)], Hd2 as [-> | (p2 & -> & Hp2)].
    - rewrite !append_nil_r in Elast. auto.
    - rewrite append_nil_r in Elast. exfalso. apply (Hdot b1).
      rewrite Elast. apply occurs_append. right. now left.
    - rewrite append_nil_r in Elast. exfalso. apply (Hdot b2).
      rewrite <- Elast. apply occurs_append. right. now left.
    - apply split_last_unique in Elast as [-> ->]; auto. }
  apply str_inj in Eb. subst. auto.
Qed.

(** Tiles of [.tif] files with one name have one flattened relative path and
    one window. *)
Lemma cropped_img_name_inj (rel1 rel2 : string)
    (l1 t1 r1 b1 l2 t2 r2 b2 : Z) :
  is_tif rel1 = true -> is_tif rel2 = true ->
  cropped_img_name_of rel1 l1 t1 r1 b1 = cropped_img_name_of rel2 l2 t2 r2 b2 ->
  Py.replace "/" "_" rel1 = Py.replace "/" "_" rel2 /\
  (l1, t1, r1, b1) = (l2, t2, r2, b2).
Proof.
  intros T1 T2 E.
  destruct (os_path.splitext rel1) as [base1 ext1] eqn:S1.
  destruct (os_path.splitext rel2) as [base2 ext2] eqn:S2.
  rewrite (cropped_img_name_eq _ _ _ _ _ _ _ S1) in E.
  rewrite (cropped_img_name_eq _ _ _ _ _ _ _ S2) in E.
  pose proof (tif_ext _ _ _ T1 S1) as U1.
  pose proof (tif_ext _ _ _ T2 S2) as U2.
  destruct (splitext_spec _ _ _ S1) as [-> D1].
  destruct (splitext_spec _ _ _ S2) as [-> D2].
  apply name_parts_inj in E as (Eb & Ew & ->); auto.
  - now rewrite !replace_append, Eb.
  - destruct D1 as [-> | (post & -> & ? & _)]; [now left | right; eauto].
  - destruct D2 as [-> | (post & -> & ? & _)]; [now left | right; eauto].
Qed.

(** Outside the files the run discovers the naming is not injective: a
    relative path whose extension holds underscores can name a tile like a
    tile of another path. *)
Remark names_collide_off_tif :
  cropped_img_name_of "x.b_c_0_0_5_5" 1 1 6 6
  = cropped_img_name_of "x_1_1_6_6.b/c" 0 0 5 5 /\
  Py.replace "/" "_" "x.b_c_0_0_5_5" <> Py.replace "/" "_" "x_1_1_6_6.b/c".
Proof. split; [reflexivity | discriminate]. Qed.

Lemma tif_paths_in (w : World) (input_directory p : string) :
  In p (tif_paths w input_directory) ->
  exists subdir files file,
    In (subdir, files) (walk w input_directory) /\ In file files /\
    is_tif file = true /\ p = os_path.join subdir file.
Proof.
  unfold tif_paths, collect_tif_paths. intros H.
  apply in_flat_map in H as ([subdir files] & Hwalk & H).
  apply in_flat_map in H as (file & Hfile & H).
  destruct (is_tif file) eqn:T; [| destruct H].
  destruct H as [<- | []]. now exists subdir, files, file.
Qed.

(** C6. Within one run, two distinct (source file, window) pairs get
    distinct tile names, and distinct tile paths, when distinct source files
    have distinct relative paths after the separators are flattened.  The
    files are discovered ones, whose relative path ends in their [.tif]
    name. *)
Theorem tile_names_distinct (w : World)
    (input_directory output_directory : string) (window_size : Z * Z)
    (p1 p2 : string) (left1 top1 left2 top2 : Z) :
  (forall subdir files file,
      In (subdir, files) (walk w input_directory) -> In file files ->
      exists dir,
        relpath w (os_path.join subdir file) input_directory = dir ++ file) ->
  In p1 (tif_paths w input_directory) ->
  In p2 (tif_paths w input_directory) ->
  (p1 <> p2 ->
   Py.replace "/" "_" (relpath w p1 input_directory)
   <> Py.replace "/" "_" (relpath w p2 input_directory)) ->
  (p1, left1, top1) <> (p2, left2, top2) ->
  let name p left top :=
    cropped_img_name_of (relpath w p input_directory) left top
      (left + fst window_size) (top + snd window_size) in
  name p1 left1 top1 <> name p2 left2 top2 /\
  os_path.join output_directory (name p1 left1 top1)
  <> os_path.join output_directory (name p2 left2 top2).
Proof.
  intros Hrel H1 H2 Hflat Hne name.
  assert (Htif : forall p, In p (tif_paths w input_directory) ->
                   is_tif (relpath w p input_directory) = true).
  { intros p Hp.
    apply tif_paths_in in Hp as (subdir & files & file & Hw & Hf & T & ->).
    destruct (Hrel _ _ _ Hw Hf) as [dir ->]. now apply is_tif_append. }
  assert (Hname : name p1 left1 top1 <> name p2 left2 top2).
  { intros E. subst name. cbv beta in E.
    apply cropped_img_name_inj in E as [Ef Ew]; auto.
    injection Ew as -> -> _ _.
    destruct (string_dec p1 p2) as [-> | Hp]; [now apply Hne |].
    now apply Hflat. }
  split; [exact Hname |].
  rewrite !join_plain by apply cropped_img_name_plain.
  intros E. apply append_inv_head, append_inv_head in E. now apply Hname.
Qed.

Lemma tile_names_distinct_witness :
  cropped_img_name_of (relpath sample_world "in/a/b.tif" "in") 0 0
    (0 + 1000) (0 + 1000)
  <> cropped_img_name_of (relpath sample_world "in/a/c.TIF" "in") 0 0
       (0 + 1000) (0 + 1000) /\
  os_path.join "out"
    (cropped_img_name_of (relpath sample_world "in/a/b.tif" "in") 0 0
       (0 + 1000) (0 + 1000))
  <> os_path.join "out"
       (cropped_img_name_of (relpath sample_world "in/a/c.TIF" "in") 0 0
          (0 + 1000) (0 + 1000)).
Proof.
  apply (tile_names_distinct sample_world "in" "out" (1000, 1000)
           "in/a/b.tif" "in/a/c.TIF" 0 0 0 0).
  - intros subdir files file [[= <- <-] | [[= <- <-] | []]].
    + intros [<- | []]. now exists "".
    + intros [<- | [<- | []]]; now exists "a/".
  - vm_compute. tauto.
  - vm_compute. tauto.
  - intros _. vm_compute. discriminate.
  - discriminate.
Defined.

(** ** Running again *)

Section Rerun.

Variables w1 w2 : World.
Variables input_directory output_directory : string.
Variable window_size : Z * Z.
Variable step_size : Z.

Hypothesis same_relpath :
  forall p, In p (tif_paths w1 input_directory) ->
    relpath w1 p input_directory = relpath w2 p input_directory.
Hypothesis same_rasters :
  forall p, In p (tif_paths w1 input_directory) -> Open w1 p = Open w2 p.
Hypothesis same_crops :
  forall dest ds win, Translate w1 dest ds win = Translate w2 dest ds win.

Lemma crop_dataset_same (p : string) (ds : Dataset) :
  In p (tif_paths w1 input_directory) ->
  crop_dataset w1 input_directory output_directory window_size step_size p ds
  = crop_dataset w2 input_directory output_directory window_size step_size
      p ds.
Proof.
  intros Hp. unfold crop_dataset.
  destruct (RasterXSize ds) as [e | W]; [reflexivity |].
  destruct (RasterYSize ds) as [e | H]; [reflexivity |].
  rewrite !bind_lift.
  destruct (Py.range 0 (H - snd window_size + 1) step_size)
    as [e | tops]; [reflexivity |].
  rewrite !bind_lift. apply for_ext. intros top _.
  destruct (Py.range 0 (W - fst window_size + 1) step_size)
    as [e | lefts]; [reflexivity |].
  rewrite !bind_lift. apply for_ext. intros left _.
  unfold crop_window. now rewrite (same_relpath p Hp), same_crops.
Qed.

Lemma process_file_same (p : string) :
  In p (tif_paths w1 input_directory) ->
  process_file w1 input_directory output_directory window_size step_size p
  = process_file w2 input_directory output_directory window_size step_size p.
Proof.
  intros Hp.
  assert (E : try_body w1 input_directory output_directory window_size
                step_size p
              = try_body w2 input_directory output_directory window_size
                  step_size p).
  { unfold try_body. rewrite (same_rasters p Hp).
    destruct (Open w2 p) as [e | [ds |]]; try reflexivity.
    cbn [bind]. now rewrite (crop_dataset_same p ds Hp). }
  unfold process_file. now rewrite E.
Qed.

End Rerun.

Lemma tif_paths_intro (w : World) (input_directory subdir file : string)
    (files : list string) :
  In (subdir, files) (walk w input_directory) -> In file files ->
  is_tif file = true ->
  In (os_path.join subdir file) (tif_paths w input_directory).
Proof.
  intros Hw Hf T. unfold tif_paths, collect_tif_paths.
  apply in_flat_map. exists (subdir, files). split; [assumption |].
  apply in_flat_map. exists file. split; [assumption |].
  rewrite T. now left.
Qed.

(** A crop call of the iteration of a discovered file is a crop call of the
    run, when the run gets past the output directory. *)
Lemma run_crops_of_file (w : World)
    (input_directory output_directory : string) (window_size : Z * Z)
    (step_size : Z) (tif_path : string) (ev : Event) :
  exists_ w output_directory = true \/ makedirs w output_directory = None ->
  In tif_path (tif_paths w input_directory) ->
  In ev (trace (process_file w input_directory output_directory window_size
                  step_size tif_path)) ->
  In ev (trace (crop_tif_images_with_gdal w input_directory output_directory
                  window_size step_size)).
Proof.
  intros Hdir Hp Hev. rewrite (run_eq _ _ _ _ _ Hdir). cbn [trace fst].
  apply in_or_app. right. right. right. apply in_or_app. left.
  apply in_flat_map. now exists tif_path.
Qed.

(** C9. Two runs with the same arguments on the same inputs - the same
    files in the same directories under the input directory, in whatever
    order they are listed, the same relative paths and rasters for them, a
    crop primitive that behaves alike - request the same set of crops: each
    output file name is requested in both or in none, from the same raster
    and with the same window, whether or not the output directory has to be
    created first.  When the listings also agree in order, so do the
    sequences of requests.  Both runs return [None]. *)
Theorem rerun_same_requests (w1 w2 : World)
    (input_directory output_directory : string) (window_size : Z * Z)
    (step_size : Z) :
  (forall subdir file,
      (exists files,
          In (subdir, files) (walk w1 input_directory) /\ In file files) <->
      (exists files,
          In (subdir, files) (walk w2 input_directory) /\ In file files)) ->
  (forall p, In p (tif_paths w1 input_directory) ->
     relpath w1 p input_directory = relpath w2 p input_directory /\
     Open w1 p = Open w2 p) ->
  (forall dest ds win, Translate w1 dest ds win = Translate w2 dest ds win) ->
  (exists_ w1 output_directory = true \/ makedirs w1 output_directory = None)
  ->
  (exists_ w2 output_directory = true \/ makedirs w2 output_directory = None)
  ->
  let run w :=
    crop_tif_images_with_gdal w input_directory output_directory window_size
      step_size in
  (forall dest src win,
      In (dest, src, win) (translations (trace (run w1))) <->
      In (dest, src, win) (translations (trace (run w2)))) /\
  (walk w1 input_directory = walk w2 input_directory ->
   translations (trace (run w1)) = translations (trace (run w2))) /\
  outcome (run w1) = inr tt /\ outcome (run w2) = inr tt.
Proof.
  intros Hlist Hfiles Hcrops Hd1 Hd2 run. subst run. cbv beta.
  assert (Hsame : forall p, In p (tif_paths w1 input_directory) ->
            process_file w1 input_directory output_directory window_size
              step_size p
            = process_file w2 input_directory output_directory window_size
                step_size p).
  { intros p Hp. apply process_file_same; auto.
    - intros q Hq. now apply Hfiles.
    - intros q Hq. now apply Hfiles. }
  assert (Hpaths : forall p, In p (tif_paths w1 input_directory) <->
                             In p (tif_paths w2 input_directory)).
  { intros p. split; intros Hp;
      apply tif_paths_in in Hp as (subdir & files & file & Hw & Hf & T & ->).
    - destruct (proj1 (Hlist subdir file)) as (files' & Hw' & Hf');
        [now exists files |].
      now apply (tif_paths_intro _ _ _ _ files').
    - destruct (proj2 (Hlist subdir file)) as (files' & Hw' & Hf');
        [now exists files |].
      now apply (tif_paths_intro _ _ _ _ files'). }
  split; [| split; [| split]].
  - intros dest src win. rewrite !translations_in. split; intros Hin.
    + apply run_crops_by_file in Hin as (p & Hp & Hin).
      rewrite (Hsame p Hp) in Hin.
      apply (run_crops_of_file _ _ _ _ _ p); auto. now apply Hpaths.
    + apply run_crops_by_file in Hin as (p & Hp & Hin).
      apply Hpaths in Hp. rewrite <- (Hsame p Hp) in Hin.
      now apply (run_crops_of_file _ _ _ _ _ p).
  - intros Hwalk.
    rewrite (run_eq _ _ _ _ _ Hd1), (run_eq _ _ _ _ _ Hd2). cbn [trace fst].
    assert (E : tif_paths w2 input_directory = tif_paths w1 input_directory)
      by (unfold tif_paths; now rewrite Hwalk).
    rewrite E.
    rewrite (flat_map_same
               (fun p => trace (process_file w1 input_directory
                                  output_directory window_size step_size p))
               (fun p => trace (process_file w2 input_directory
                                  output_directory window_size step_size p)))
      by (intros p Hp; now rewrite (Hsame p Hp)).
    rewrite !translations_app. f_equal.
    now destruct (exists_ w1 _), (exists_ w2 _).
  - now rewrite (run_eq _ _ _ _ _ Hd1).
  - now rewrite (run_eq _ _ _ _ _ Hd2).
Qed.

Lemma rerun_same_requests_witness :
  (forall dest src win,
      In (dest, src, win)
         (translations (trace (crop_tif_images_with_gdal sample_world
                                 "in" "out" (1000, 1000) 1000))) <->
      In (dest, src, win)
         (translations (trace (crop_tif_images_with_gdal relisted_world
                                 "in" "out" (1000, 1000) 1000)))) /\
  (walk sample_world "in" = walk relisted_world "in" ->
   translations (trace (crop_tif_images_with_gdal sample_world "in" "out"
                          (1000, 1000) 1000))
   = translations (trace (crop_tif_images_with_gdal relisted_world
                            "in" "out" (1000, 1000) 1000))) /\
  outcome (crop_tif_images_with_gdal sample_world "in" "out"
             (1000, 1000) 1000) = inr tt /\
  outcome (crop_tif_images_with_gdal relisted_world "in" "out"
             (1000, 1000) 1000) = inr tt.
Proof.
  apply (rerun_same_requests sample_world relisted_world "in" "out"
           (1000, 1000) 1000).
  - intros subdir file. split; intros (files & Hin & Hf);
      vm_compute in Hin;
      destruct Hin as [[= <- <-] | [[= <- <-] | []]];
      vm_compute in Hf.
    + exists ["x.txt"]. split; [vm_compute; tauto | exact Hf].
    + exists ["c.TIF"; "b.tif"].
      split; [vm_compute; tauto | vm_compute; tauto].
    + exists ["b.tif"; "c.TIF"].
      split; [vm_compute; tauto | vm_compute; tauto].
    + exists ["x.txt"]. split; [vm_compute; tauto | exact Hf].
  - intros p _. split; reflexivity.
  - reflexivity.
  - right. reflexivity.
  - left. reflexivity.
Defined.

(** The two sample listings open the files in different orders. *)
Example relisted_run :
  opens (trace (crop_tif_images_with_gdal sample_world "in" "out"
                  (1000, 1000) 1000))
  = ["in/a/b.tif"; "in/a/c.TIF"] /\
  opens (trace (crop_tif_images_with_gdal relisted_world "in" "out"
                  (1000, 1000) 1000))
  = ["in/a/c.TIF"; "in/a/b.tif"].
Proof. split; reflexivity. Qed.

(** * Further properties *)

(** ** Discovery *)

Lemma lower_char_t (c : ascii) :
  Py.lower_char c = "t"%char -> c = "t"%char \/ c = "T"%char.
Proof.
  destruct c as [[] [] [] [] [] [] [] []]; vm_compute; intros E;
    try discriminate E; auto.
Qed.

Lemma lower_char_i (c : ascii) :
  Py.lower_char c = "i"%char -> c = "i"%char \/ c = "I"%char.
Proof.
  destruct c as [[] [] [] [] [] [] [] []]; vm_compute; intros E;
    try discriminate E; auto.
Qed.

Lemma lower_char_f (c : ascii) :
  Py.lower_char c = "f"%char -> c = "f"%char \/ c = "F"%char.
Proof.
  destruct c as [[] [] [] [] [] [] [] []]; vm_compute; intros E;
    try discriminate E; auto.
Qed.

(** X1. The test of line 28 accepts exactly the names that end in a dot
    followed by [tif] in any mix of upper and lower case; [.tiff], a bare
    [tif] and any other ending are refused. *)
Theorem is_tif_iff (file : string) :
  is_tif file = true <->
  exists pre c1 c2 c3,
    file = pre ++ String "." (String c1 (String c2 (String c3 ""))) /\
    (c1 = "t"%char \/ c1 = "T"%char) /\
    (c2 = "i"%char \/ c2 = "I"%char) /\
    (c3 = "f"%char \/ c3 = "F"%char).
Proof.
  split.
  - unfold is_tif. intros H. apply endswith_iff in H as [pre' E].
    apply lower_split in E as (pre & suffix & -> & _ & E).
    destruct suffix as [| c0 [| c1 [| c2 [| c3 [| ? ?]]]]];
      try discriminate E.
    injection E as E0 E1 E2 E3. apply lower_char_dot in E0 as ->.
    exists pre, c1, c2, c3.
    repeat split;
      [now apply lower_char_t | now apply lower_char_i
       | now apply lower_char_f].
  - intros (pre & c1 & c2 & c3 & -> & H1 & H2 & H3).
    apply is_tif_append.
    destruct H1 as [-> | ->], H2 as [-> | ->], H3 as [-> | ->];
      reflexivity.
Qed.

Lemma opens_app (t1 t2 : list Event) :
  opens (t1 ++ t2) = (opens t1 ++ opens t2)%list.
Proof.
  induction t1 as [| ev t1 IH]; [reflexivity |].
  destruct ev; simpl; now rewrite ?IH.
Qed.

(** One iteration of the file loop opens its file, and nothing else. *)
Lemma process_file_opens (w : World) (i o : string) (ws : Z * Z) (s : Z)
    (p : string) :
  opens (trace (process_file w i o ws s p)) = [p].
Proof.
  rewrite process_file_eq. cbn [trace fst]. rewrite !opens_app.
  assert (Hbody : opens (trace (try_body w i o ws s p)) = [p]).
  { destruct (Open w p) as [e | [ds |]] eqn:O.
    - now rewrite (try_body_open_raises _ _ _ _ _ _ _ O).
    - rewrite (try_body_open_some _ _ _ _ _ _ _ O). cbn [trace fst opens].
      f_equal.
      pose proof (crop_dataset_in w i o ws s p ds) as Hall.
      induction (trace (crop_dataset w i o ws s p ds)) as [| ev t IH];
        [reflexivity |].
      destruct (Hall ev (or_introl eq_refl)) as (_ & _ & tl & _ & _ & _ & ->).
      cbn. apply IH. intros; apply Hall; now right.
    - now rewrite (try_body_open_none _ _ _ _ _ _ O). }
  rewrite Hbody. now destruct (outcome _).
Qed.

(** X2. When the output directory exists or can be created, the run asks
    GDAL to open every discovered path exactly once, in the order of
    discovery, and opens nothing else. *)
Theorem every_file_opened_once (w : World)
    (input_directory output_directory : string) (window_size : Z * Z)
    (step_size : Z) :
  exists_ w output_directory = true \/ makedirs w output_directory = None ->
  opens (trace (crop_tif_images_with_gdal w input_directory output_directory
                  window_size step_size))
  = tif_paths w input_directory.
Proof.
  intros Hdir. rewrite (run_eq _ _ _ _ _ Hdir). cbn [trace fst].
  rewrite opens_app. cbn [opens]. rewrite opens_app. cbn [opens].
  rewrite app_nil_r.
  replace (opens (if exists_ w output_directory then []
                  else [os_makedirs output_directory])) with (@nil string)
    by now destruct (exists_ w _).
  cbn [app].
  induction (tif_paths w input_directory) as [| p paths IH]; [reflexivity |].
  cbn [flat_map]. now rewrite opens_app, process_file_opens, IH.
Qed.

Lemma every_file_opened_once_witness :
  opens (trace (crop_tif_images_with_gdal disk_full_world "in" "out"
                  (1000, 1000) 1000))
  = ["in/a/b.tif"; "in/a/c.TIF"].
Proof.
  apply (every_file_opened_once disk_full_world "in" "out" (1000, 1000) 1000).
  right. reflexivity.
Defined.

(** X3. When no file under the input directory passes the test of line 28 -
    an empty or missing directory included - the run only sets up: it
    creates the output directory if it is missing, walks the input
    directory, starts a progress bar of total 0 and closes it. *)
Theorem nothing_discovered (w : World)
    (input_directory output_directory : string) (window_size : Z * Z)
    (step_size : Z) :
  (forall subdir files file,
      In (subdir, files) (walk w input_directory) -> In file files ->
      is_tif file = false) ->
  exists_ w output_directory = true \/ makedirs w output_directory = None ->
  crop_tif_images_with_gdal w input_directory output_directory window_size
    step_size
  = (((if exists_ w output_directory then []
       else [os_makedirs output_directory])
      ++ [os_walk input_directory; tqdm 0; progress_bar_close])%list,
     inr tt).
Proof.
  intros Hnone Hdir. rewrite (run_eq _ _ _ _ _ Hdir).
  assert (E : tif_paths w input_directory = []).
  { destruct (tif_paths w input_directory) as [| p paths] eqn:T;
      [reflexivity |].
    assert (Hp : In p (tif_paths w input_directory))
      by (rewrite T; now left).
    apply tif_paths_in in Hp as (subdir & files & file & Hw & Hf & Ht & _).
    rewrite (Hnone _ _ _ Hw Hf) in Ht. discriminate. }
  now rewrite E.
Qed.

Lemma nothing_discovered_witness :
  crop_tif_images_with_gdal no_tif_world "in" "out" (1000, 1000) 1000
  = ([os_walk "in"; tqdm 0; progress_bar_close], inr tt).
Proof.
  apply (nothing_discovered no_tif_world "in" "out" (1000, 1000) 1000).
  - intros subdir files file [[= <- <-] | []] [<- | [<- | [<- | []]]];
      reflexivity.
  - left. reflexivity.
Defined.

(** ** Steps that are not positive *)

(** X5. With a step of zero no tile is ever cropped: for a file that opens
    and has a size, [range] raises before the first window, and the file's
    iteration is the open, the line [Error processing {path}: range() arg 3
    must not be zero] and one step of the progress bar. *)
Theorem zero_step_crops_nothing (w : World)
    (input_directory output_directory : string) (window_size : Z * Z)
    (tif_path : string) (dataset : Dataset) (W H : Z) :
  Open w tif_path = inr (Some dataset) ->
  RasterXSize dataset = inr W -> RasterYSize dataset = inr H ->
  process_file w input_directory output_directory window_size 0 tif_path
  = ([gdal_Open tif_path;
      print ("Error processing " ++ tif_path
             ++ ": range() arg 3 must not be zero");
      progress_bar_update 1],
     inr tt).
Proof.
  intros HO HW HH. rewrite (process_file_opened _ _ _ _ _ _ _ HO).
  unfold crop_dataset. rewrite HW, HH, !bind_lift. reflexivity.
Qed.

Lemma zero_step_crops_nothing_witness :
  process_file sample_world "in" "out" (1000, 1000) 0 "in/a/b.tif"
  = ([gdal_Open "in/a/b.tif";
      print "Error processing in/a/b.tif: range() arg 3 must not be zero";
      progress_bar_update 1],
     inr tt).
Proof.
  apply (zero_step_crops_nothing sample_world "in" "out" (1000, 1000)
           "in/a/b.tif" sample_dataset 2000 1500); reflexivity.
Defined.

(** The values of [range(0, stop, step)] for a negative step lie in
    (stop, 0]. *)
Lemma range_negative_in (stop step : Z) (xs : list Z) (x : Z) :
  step < 0 -> Py.range 0 stop step = inr xs -> In x xs -> stop < x <= 0.
Proof.
  intros Hs. unfold Py.range, Py.range_len.
  destruct (Z.eqb_spec step 0); [lia |].
  destruct (Z.ltb_spec 0 step); [lia |].
  intros [= <-] Hin. apply in_map_iff in Hin as (i & <- & Hi).
  apply in_seq in Hi. revert Hi.
  destruct (Z.ltb_spec stop 0) as [Hstop | Hstop]; intros Hi;
    [| simpl in Hi; lia].
  assert (Hq : 0 <= (- stop - 1) / - step) by (apply Z.div_pos; lia).
  assert (Hi' : Z.of_nat i <= (- stop - 1) / - step) by lia.
  pose proof (Z.mul_div_le (- stop - 1) (- step) ltac:(lia)).
  nia.
Qed.

(** X6. With a negative step the loops do not tile the raster: every window
    they request starts at or before the origin and reaches more than one
    pixel past the right and the bottom edge of the raster (and there is no
    request at all unless the window is that much larger than the
    raster). *)
Theorem negative_step_outside (w : World)
    (input_directory output_directory : string) (window_size : Z * Z)
    (step_size : Z) (dest : string) (src : Dataset)
    (left top xsize ysize W H : Z) :
  step_size < 0 ->
  In (gdal_Translate dest src (left, top, xsize, ysize))
     (trace (crop_tif_images_with_gdal w input_directory output_directory
               window_size step_size)) ->
  RasterXSize src = inr W -> RasterYSize src = inr H ->
  left <= 0 /\ top <= 0 /\
  W + 1 < left + fst window_size /\ H + 1 < top + snd window_size.
Proof.
  intros Hs Hin HW HH.
  apply run_translate_in in Hin
    as (p & W' & H' & [top' left'] & _ & _ & HW' & HH' & Htl & E).
  assert (W' = W) as -> by congruence.
  assert (H' = H) as -> by congruence.
  injection E as _ -> -> _ _. cbn [fst snd].
  unfold windows in Htl.
  destruct (Py.range 0 (H - snd window_size + 1) step_size)
    as [e | tops] eqn:Etops; [destruct Htl |].
  destruct (Py.range 0 (W - fst window_size + 1) step_size)
    as [e | lefts] eqn:Elefts; [destruct Htl |].
  apply in_flat_map in Htl as (t & Ht & Htl).
  apply in_map_iff in Htl as (l & [= -> ->] & Hl).
  pose proof (range_negative_in _ _ _ _ Hs Etops Ht).
  pose proof (range_negative_in _ _ _ _ Hs Elefts Hl).
  lia.
Qed.

Lemma negative_step_outside_witness :
  0 <= 0 /\ 0 <= 0 /\ 2000 + 1 < 0 + 2002 /\ 1500 + 1 < 0 + 1502.
Proof.
  apply (negative_step_outside sample_world "in" "out" (2002, 1502) (-1)
           "out/a_b_0_0_2002_1502.tif" sample_dataset 0 0 2002 1502
           2000 1500);
    [lia | | reflexivity | reflexivity].
  vm_compute. tauto.
Defined.

(** ** Overlap and coverage of the tiles *)

(** X7. With a positive step that is at least the width and the height of
    the window, two crop requests of one file with different origins share
    no pixel. *)
Theorem tiles_disjoint (w : World)
    (input_directory output_directory : string) (window_size : Z * Z)
    (step_size : Z) (tif_path d1 d2 : string) (src1 src2 : Dataset)
    (left1 top1 xsize1 ysize1 left2 top2 xsize2 ysize2 : Z) :
  0 < step_size ->
  fst window_size <= step_size -> snd window_size <= step_size ->
  In (gdal_Translate d1 src1 (left1, top1, xsize1, ysize1))
     (trace (process_file w input_directory output_directory window_size
               step_size tif_path)) ->
  In (gdal_Translate d2 src2 (left2, top2, xsize2, ysize2))
     (trace (process_file w input_directory output_directory window_size
               step_size tif_path)) ->
  (top1, left1) <> (top2, left2) ->
  forall x y,
    ~ (in_window window_size (top1, left1) x y /\
       in_window window_size (top2, left2) x y).
Proof.
  intros Hs Hw Hh H1 H2 Hne x y [[Hx1 Hy1] [Hx2 Hy2]].
  apply process_file_translate_in in H1
    as (W1 & H1' & [t1 l1] & _ & _ & _ & Htl1 & E1).
  apply process_file_translate_in in H2
    as (W2 & H2' & [t2 l2] & _ & _ & _ & Htl2 & E2).
  injection E1 as _ -> -> _ _. injection E2 as _ -> -> _ _.
  cbn [fst snd] in *.
  apply windows_in in Htl1 as [_ (r1 & c1 & -> & ->)]; [| assumption].
  apply windows_in in Htl2 as [_ (r2 & c2 & -> & ->)]; [| assumption].
  assert (r1 <> r2 \/ c1 <> c2) as [Hr | Hc].
  { destruct (Nat.eq_dec r1 r2) as [-> |]; [| now left].
    destruct (Nat.eq_dec c1 c2) as [-> |]; [| now right].
    now contradiction Hne. }
  - assert (Z.of_nat r1 + 1 <= Z.of_nat r2 \/ Z.of_nat r2 + 1 <= Z.of_nat r1)
      as [L | L] by lia; nia.
  - assert (Z.of_nat c1 + 1 <= Z.of_nat c2 \/ Z.of_nat c2 + 1 <= Z.of_nat c1)
      as [L | L] by lia; nia.
Qed.

Lemma tiles_disjoint_witness :
  ~ (in_window (1000, 1000) (0, 0) 1000 500 /\
     in_window (1000, 1000) (0, 1000) 1000 500).
Proof.
  apply (tiles_disjoint sample_world "in" "out" (1000, 1000) 1000
           "in/a/b.tif" "out/a_b_0_0_1000_1000.tif"
           "out/a_b_1000_0_2000_1000.tif" sample_dataset sample_dataset
           0 0 1000 1000 1000 0 1000 1000);
    [lia | cbn; lia | cbn; lia | vm_compute; tauto | vm_compute; tauto
     | discriminate].
Defined.

(** One iteration of the file loop on a raster whose crops all return: the
    open, the calls of the whole grid, one step of the progress bar. *)
Lemma process_file_full (w : World) (i o : string) (ws : Z * Z) (s : Z)
    (p : string) (ds : Dataset) (W H : Z) :
  s <> 0 ->
  Open w p = inr (Some ds) ->
  RasterXSize ds = inr W -> RasterYSize ds = inr H ->
  (forall dest win, Translate w dest ds win = None) ->
  process_file w i o ws s p
  = (gdal_Open p
       :: (map (translate_call w i o ws p ds) (windows ws s W H)
           ++ [progress_bar_update 1])%list,
     inr tt).
Proof.
  intros Hs HO HW HH Hok. rewrite (process_file_opened _ _ _ _ _ _ _ HO).
  destruct (crop_dataset_prefix w i o ws s p ds W H HW HH) as [_ Hfull].
  rewrite (crop_dataset_returns _ _ _ _ _ _ _ W H) in * by auto.
  now rewrite (Hfull eq_refl).
Qed.

(** The origins at multiples of the step whose window fits are in the
    grid. *)
Lemma windows_member (ws : Z * Z) (s W H r c : Z) :
  0 < s ->
  0 <= r -> r * s + snd ws <= H ->
  0 <= c -> c * s + fst ws <= W ->
  In (r * s, c * s) (windows ws s W H).
Proof.
  intros Hs Hr HrH Hc HcW. rewrite windows_rows by assumption.
  rewrite !axis_count by assumption.
  destruct (Z.leb_spec (snd ws) H); [| nia].
  destruct (Z.leb_spec (fst ws) W); [| nia].
  assert (r <= (H - snd ws) / s) by (apply Z.div_le_lower_bound; lia).
  assert (c <= (W - fst ws) / s) by (apply Z.div_le_lower_bound; lia).
  apply in_flat_map. exists (Z.to_nat r). split; [apply in_seq; lia |].
  apply in_map_iff. exists (Z.to_nat c). split; [| apply in_seq; lia].
  now rewrite !Z2Nat.id by assumption.
Qed.

(** Along one axis, the windows reach every coordinate below the last
    window's end. *)
Lemma axis_cover (size window s x : Z) :
  0 < s -> s <= window -> window <= size ->
  0 <= x < size - (size - window) mod s ->
  exists c, 0 <= c /\ c * s + window <= size /\ c * s <= x < c * s + window.
Proof.
  intros Hs Hsw Hws Hx.
  pose proof (Z.div_mod (size - window) s ltac:(lia)) as Dn.
  pose proof (Z.mod_pos_bound (size - window) s Hs) as Mn.
  pose proof (Z.div_mod x s ltac:(lia)) as Dx.
  pose proof (Z.mod_pos_bound x s Hs) as Mx.
  assert (0 <= (size - window) / s) by (apply Z.div_pos; lia).
  assert (0 <= x / s) by (apply Z.div_pos; lia).
  destruct (Z_le_gt_dec (x / s) ((size - window) / s)) as [L | G].
  - exists (x / s). nia.
  - exists ((size - window) / s). nia.
Qed.

(** Along one axis, no window ends past the last window's end. *)
Lemma axis_limit (size window s c : Z) :
  0 < s -> c * s + window <= size ->
  c * s + window <= size - (size - window) mod s.
Proof.
  intros Hs Hc.
  pose proof (Z.div_mod (size - window) s ltac:(lia)) as Dn.
  pose proof (Z.mod_pos_bound (size - window) s Hs) as Mn.
  assert (c <= (size - window) / s) by (apply Z.div_le_lower_bound; lia).
  nia.
Qed.

(** X8. With a positive step no larger than the window in either direction
    and a window that fits, the tiles of a raster whose crops all return
    cover exactly the pixels (x, y) with [0 <= x < W - (W - w) mod s] and
    [0 <= y < H - (H - h) mod s]: no gap between tiles, and the strips of
    [(W - w) mod s] columns and [(H - h) mod s] rows at the right and the
    bottom are in no tile. *)
Theorem tiles_cover (w : World)
    (input_directory output_directory : string) (window_size : Z * Z)
    (step_size : Z) (tif_path : string) (dataset : Dataset) (W H : Z) :
  0 < step_size ->
  step_size <= fst window_size -> step_size <= snd window_size ->
  fst window_size <= W -> snd window_size <= H ->
  Open w tif_path = inr (Some dataset) ->
  RasterXSize dataset = inr W -> RasterYSize dataset = inr H ->
  (forall dest win, Translate w dest dataset win = None) ->
  forall x y,
    (exists dest tl,
        In (gdal_Translate dest dataset
              (snd tl, fst tl, fst window_size, snd window_size))
           (trace (process_file w input_directory output_directory
                     window_size step_size tif_path)) /\
        in_window window_size tl x y)
    <->
    (0 <= x < W - (W - fst window_size) mod step_size /\
     0 <= y < H - (H - snd window_size) mod step_size).
Proof.
  intros Hs Hsw Hsh HwW HhH HO HW HH Hok x y.
  rewrite (process_file_full _ _ _ _ _ _ dataset W H) by (auto; lia).
  cbn [trace fst]. split.
  - intros (dest & tl & Hin & [Hx Hy]).
    destruct Hin as [[=] | Hin].
    apply in_app_or in Hin as [Hin | [[=] | []]].
    apply in_map_iff in Hin as ([t l] & E & Htl).
    injection E as _ El Et. cbn [fst snd] in El, Et.
    apply windows_in in Htl as [(Hl0 & HlW & Ht0 & HtH) (r & c & Er & Ec)];
      [| assumption].
    assert (l + fst window_size
            <= W - (W - fst window_size) mod step_size)
      by (rewrite Ec in *; now apply axis_limit).
    assert (t + snd window_size
            <= H - (H - snd window_size) mod step_size)
      by (rewrite Er in *; now apply axis_limit).
    lia.
  - intros [Hx Hy].
    destruct (axis_cover W (fst window_size) step_size x)
      as (c & Hc0 & HcW & Hcx); auto.
    destruct (axis_cover H (snd window_size) step_size y)
      as (r & Hr0 & HrH & Hry); auto.
    eexists. exists (r * step_size, c * step_size). split.
    + right. apply in_or_app. left.
      apply in_map_iff. exists (r * step_size, c * step_size).
      split; [reflexivity | now apply windows_member].
    + split; assumption.
Qed.

Lemma tiles_cover_witness :
  (exists dest tl,
      In (gdal_Translate dest sample_dataset (snd tl, fst tl, 1000, 1000))
         (trace (process_file sample_world "in" "out" (1000, 1000) 1000
                   "in/a/b.tif")) /\
      in_window (1000, 1000) tl 1999 999)
  <->
  (0 <= 1999 < 2000 - (2000 - 1000) mod 1000 /\
   0 <= 999 < 1500 - (1500 - 1000) mod 1000).
Proof.
  apply (tiles_cover sample_world "in" "out" (1000, 1000) 1000 "in/a/b.tif"
           sample_dataset 2000 1500);
    try reflexivity; cbn; lia.
Defined.

(** ** A crop that fails *)

(** X9. When the crop of one window raises, the file's iteration is: the
    open, the crop calls of the grid up to and including the failing one, in
    grid order, the line [Error processing {path}: {message}] and one step
    of the progress bar; the windows after the failing one are never
    requested, and the tiles before it are not undone. *)
Theorem crop_failure_stops_file (w : World)
    (input_directory output_directory : string) (window_size : Z * Z)
    (step_size : Z) (tif_path : string) (dataset : Dataset) (W H : Z)
    (done rest : list (Z * Z)) (failing : Z * Z) (e : Exception) :
  step_size <> 0 ->
  Open w tif_path = inr (Some dataset) ->
  RasterXSize dataset = inr W -> RasterYSize dataset = inr H ->
  windows window_size step_size W H = (done ++ failing :: rest)%list ->
  (forall tl, In tl done ->
     outcome (crop_window w input_directory output_directory window_size
                tif_path dataset (fst tl) (snd tl)) = inr tt) ->
  outcome (crop_window w input_directory output_directory window_size
             tif_path dataset (fst failing) (snd failing)) = inl e ->
  process_file w input_directory output_directory window_size step_size
    tif_path
  = (gdal_Open tif_path
       :: (map (translate_call w input_directory output_directory
                  window_size tif_path dataset)
               (done ++ [failing])
           ++ [print ("Error processing " ++ tif_path ++ ": " ++ message e);
               progress_bar_update 1])%list,
     inr tt).
Proof.
  intros Hs HO HW HH Hgrid Hdone Hfail.
  rewrite (process_file_opened _ _ _ _ _ _ _ HO).
  rewrite (crop_dataset_flat _ _ _ _ _ _ _ W H) by assumption.
  rewrite Hgrid.
  rewrite (for_stops
             (fun tl => crop_window w input_directory output_directory
                          window_size tif_path dataset (fst tl) (snd tl))
             done rest failing e Hdone Hfail).
  rewrite map_app, <- flat_map_singleton. reflexivity.
Qed.

Lemma crop_failure_stops_file_witness :
  process_file disk_full_world "in" "out" (1000, 1000) 1000 "in/a/b.tif"
  = ([gdal_Open "in/a/b.tif";
      gdal_Translate "out/a_b_0_0_1000_1000.tif" sample_dataset
        (0, 0, 1000, 1000);
      gdal_Translate "out/a_b_1000_0_2000_1000.tif" sample_dataset
        (1000, 0, 1000, 1000);
      print "Error processing in/a/b.tif: No space left on device";
      progress_bar_update 1],
     inr tt).
Proof.
  apply (crop_failure_stops_file disk_full_world "in" "out" (1000, 1000)
           1000 "in/a/b.tif" sample_dataset 2000 1500
           [(0, 0)] [] (0, 1000) (mkException "No space left on device"));
    try reflexivity.
  - discriminate.
  - intros tl [<- | []]. reflexivity.
Defined.

(** ** What a tile name tells *)

Lemma append_inv_tail (a b c : string) : a ++ c = b ++ c -> a = b.
Proof.
  revert b. induction a as [| x a IH]; intros [| y b] E; simpl in E.
  - reflexivity.
  - apply (f_equal String.length) in E. simpl in E.
    rewrite length_append in E. lia.
  - apply (f_equal String.length) in E. simpl in E.
    rewrite length_append in E. lia.
  - injection E as -> E. f_equal. now apply IH.
Qed.

(** A string splits in one way only at the first occurrence of a
    character. *)
Lemma split_first_unique (c : ascii) (a a' b b' : string) :
  ~ occurs c a -> ~ occurs c a' ->
  a ++ String c b = a' ++ String c b' -> a = a' /\ b = b'.
Proof.
  revert a'. induction a as [| x a IH]; intros [| x' a'] Ha Ha' E;
    simpl in *.
  - injection E as ->. auto.
  - injection E as <- _. tauto.
  - injection E as -> _. tauto.
  - injection E as -> E. destruct (IH a') as [-> ->]; auto.
Qed.

(** A string cannot end in [c] and a [c]-free rest and also in [d] and a
    [d]-free rest, when neither rest holds the other character. *)
Lemma split_cross (c d : ascii) (a a' b b' : string) :
  c <> d -> ~ occurs d b -> ~ occurs c b' ->
  a ++ String c b <> a' ++ String d b'.
Proof.
  intros Hcd Hb Hb'. revert a'.
  induction a as [| x a IH]; intros [| x' a'] E; simpl in E.
  - now injection E.
  - injection E as _ ->. apply Hb. apply occurs_append. right. now left.
  - injection E as _ <-. apply Hb'. apply occurs_append. right. now left.
  - injection E as _ E. now apply (IH a').
Qed.

(** X10. Within one file the name of a tile determines its window: two
    names built from the same relative path, whatever it is, are equal only
    when the four corners are equal. *)
Theorem window_from_name (relative_path : string)
    (l1 t1 r1 b1 l2 t2 r2 b2 : Z) :
  cropped_img_name_of relative_path l1 t1 r1 b1
  = cropped_img_name_of relative_path l2 t2 r2 b2 ->
  (l1, t1, r1, b1) = (l2, t2, r2, b2).
Proof.
  destruct (os_path.splitext relative_path) as [base ext] eqn:S.
  rewrite !(cropped_img_name_eq _ _ _ _ _ _ _ S). intros E.
  assert (Hus := fun n => str_no_char n "_" eq_refl).
  apply append_inv_head in E. cbn [append] in E. injection E as E.
  apply split_first_unique in E as [El E]; try apply Hus.
  apply split_first_unique in E as [Et E]; try apply Hus.
  apply split_first_unique in E as [Er E]; try apply Hus.
  apply append_inv_tail in E.
  apply str_inj in El, Et, Er, E. congruence.
Qed.

Lemma window_from_name_witness :
  (0, 0, 1000, 1000) = (0, 0, 500 + 500, 1000).
Proof.
  apply (window_from_name "a/b.tif" 0 0 1000 1000 0 0 (500 + 500) 1000).
  reflexivity.
Defined.

(** X11. A tile of a [.tif] path keeps the extension of the path, so it
    passes the test of line 28 itself - unless [splitext] finds no extension
    (a file name that is only dots and [tif], such as [.tif]): then the name
    ends in the bottom coordinate and does not pass. *)
Theorem tile_is_tif (relative_path : string) (left top right bottom : Z) :
  is_tif relative_path = true ->
  is_tif (cropped_img_name_of relative_path left top right bottom)
  = negb (String.eqb (snd (os_path.splitext relative_path)) "").
Proof.
  intros T. apply is_tif_iff in T as (pre & c1 & c2 & c3 & -> & H1 & H2 & H3).
  set (post := String c1 (String c2 (String c3 ""))).
  assert (Hdot : ~ occurs "." post).
  { subst post. cbn [occurs].
    destruct H1 as [-> | ->], H2 as [-> | ->], H3 as [-> | ->];
      intuition discriminate. }
  assert (Htif : is_tif (String "." post) = true).
  { subst post.
    destruct H1 as [-> | ->], H2 as [-> | ->], H3 as [-> | ->];
      reflexivity. }
  destruct (splitext_cases pre post Hdot) as [S | S];
    unfold os_path.extsep in S;
    rewrite (cropped_img_name_eq _ _ _ _ _ _ _ S), S; cbn [snd].
  - rewrite <- !append_assoc. now apply is_tif_append.
  - cbn [String.eqb negb]. clear Htif.
    destruct (is_tif _) eqn:N; [exfalso | reflexivity].
    apply is_tif_iff in N as (pre' & d1 & d2 & d3 & E & D1 & D2 & D3).
    cbn [append] in E. rewrite append_nil_r, !append_cons_assoc in E.
    revert E. apply split_cross; [discriminate | |].
    + now apply str_no_char.
    + cbn [occurs].
      destruct D1 as [-> | ->], D2 as [-> | ->], D3 as [-> | ->];
        intuition discriminate.
Qed.

Lemma tile_is_tif_witness :
  is_tif (cropped_img_name_of "a/c.TIF" 0 0 1000 1000)
  = negb (String.eqb (snd (os_path.splitext "a/c.TIF")) "").
Proof. apply (tile_is_tif "a/c.TIF" 0 0 1000 1000). reflexivity. Defined.

(** ** The invocation at module level *)

(** X12. The call of line 69 cuts every raster into whole cells of 1000 by
    1000 pixels: each crop request reads the cell in row [r] and column [c]
    of the raster, with [0 <= r < H / 1000] and [0 <= c < W / 1000], and
    writes it to a file placed in the output directory of line 65 itself. *)
Theorem main_requests (w : World) (dest : string) (src : Dataset)
    (left top xsize ysize W H : Z) :
  In (gdal_Translate dest src (left, top, xsize, ysize))
     (trace (Main.run w)) ->
  RasterXSize src = inr W -> RasterYSize src = inr H ->
  (exists r c,
      0 <= r < H / 1000 /\ 0 <= c < W / 1000 /\
      top = 1000 * r /\ left = 1000 * c) /\
  xsize = 1000 /\ ysize = 1000 /\
  exists name, ~ occurs "/" name /\ dest = Main.output_dir ++ name.
Proof.
  intros Hin HW HH. unfold Main.run in Hin.
  apply run_translate_in in Hin
    as (p & W' & H' & [t l] & _ & _ & HW' & HH' & Htl & E).
  assert (W' = W) as -> by congruence.
  assert (H' = H) as -> by congruence.
  injection E as -> -> -> -> ->. cbn [fst snd].
  apply windows_in in Htl as [(Hl0 & HlW & Ht0 & HtH) (r & c & -> & ->)];
    [| reflexivity].
  unfold Main.window_size, Main.step_size in *. cbn [fst snd] in *.
  repeat split.
  - exists (Z.of_nat r), (Z.of_nat c).
    assert (Z.of_nat r + 1 <= H / 1000)
      by (apply Z.div_le_lower_bound; lia).
    assert (Z.of_nat c + 1 <= W / 1000)
      by (apply Z.div_le_lower_bound; lia).
    lia.
  - eexists. split; [apply cropped_img_name_plain |].
    rewrite join_plain by apply cropped_img_name_plain. reflexivity.
Qed.

Lemma main_requests_witness :
  (exists r c,
      0 <= r < 1500 / 1000 /\ 0 <= c < 2000 / 1000 /\
      0 = 1000 * r /\ 1000 = 1000 * c) /\
  1000 = 1000 /\ 1000 = 1000 /\
  exists name,
    ~ occurs "/" name /\
    "/home/user/data/cropped_images/XiJiang-0602/b_1000_0_2000_1000.tif"
    = Main.output_dir ++ name.
Proof.
  apply (main_requests
           (mkWorld (fun _ => true) (fun _ => None)
                    (fun top => [(top, ["b.tif"])])
                    (fun path start => Py.drop (String.length start) path)
                    (fun _ => inr (Some sample_dataset))
                    (fun _ _ _ => None))
           "/home/user/data/cropped_images/XiJiang-0602/b_1000_0_2000_1000.tif"
           sample_dataset 1000 0 1000 1000 2000 1500);
    [| reflexivity | reflexivity].
  vm_compute. tauto.
Defined.
